(** * AsyncPipeline: ordered reassembly of asynchronous inference results

    A shallow embedding of [demos/common/pipelines/src/async_pipeline.cpp].
    The member functions of [AsyncPipeline] are written in a small monad
    that threads the pipeline's shared state, remembers whether the calling
    thread holds [mtx], and records every access to a shared member together
    with that fact.  Pure equations for each member function are derived from
    the monadic text and the properties are proved from those equations. *)

From stdpp Require Import gmap strings list fin_maps.
From Stdlib Require Import ZArith Lia.

(** ** Machine integers *)

(** [int64_t] values are integers of [Z] in the signed 64-bit range. *)
Definition INT64_MAX : Z := (2 ^ 63 - 1)%Z.

(** The value [x++] leaves in an [int64_t].  At [INT64_MAX] the increment
    overflows a signed integer, which the language leaves undefined: there
    is no value to give, and nothing can be said of what follows. *)
Definition int64_incr (x : Z) : option Z :=
  if (x <? INT64_MAX)%Z then Some (x + 1)%Z else None.

(** ** Data *)

(** Shared pointers and other opaque handles are addresses; [nullptr] is 0. *)
Definition MetaDataPtr := nat.
Definition InternalModelDataPtr := nat.
Definition InputData := nat.
Definition nullptr : nat := 0.

(** A tensor snapshot ([TBlob<float>] copied out of a request); the pipeline
    never looks inside it. *)
Definition Blob := list Z.

(** [std::exception_ptr], identified by its message. *)
Definition exception := string.

(** Modelled from the spec: the declaration of [InferenceResult] and of its
    base [ResultBase], whose header is not among the sources.  The spec lists
    its contents: the submission sequence number, the caller's metadata
    handle, the internal model data handle and the mapping from output name
    to tensor snapshot. *)
Record InferenceResult := mkInferenceResult {
  frameId : Z;
  metaData : MetaDataPtr;
  internalModelData : InternalModelDataPtr;
  outputsData : gmap string Blob
}.

(** Modelled from the spec: the default-constructed [InferenceResult], which
    the spec calls the empty result.  It carries no sequence number; the value
    used for "no sequence number" is the one [submitData] returns on
    rejection. *)
Definition InferenceResult_default : InferenceResult :=
  {| frameId := -1; metaData := nullptr; internalModelData := nullptr;
     outputsData := ∅ |}.

(** Modelled from the spec: [IsEmpty], declared in the same missing header;
    a result is empty when it carries no sequence number. *)
Definition IsEmpty (r : InferenceResult) : bool := (frameId r <? 0)%Z.

(** The caller-visible result: the [ResultBase] part and whatever the model
    adapter's [postprocess] computed. *)
Record Result := mkResult {
  res_frameId : Z;
  res_metaData : MetaDataPtr;
  res_payload : list Z
}.

(** [*result = static_cast<ResultBase&>(infResult)]: the base members are
    assigned, the derived part is kept. *)
Definition assign_ResultBase (result : Result) (infResult : InferenceResult) : Result :=
  {| res_frameId := frameId infResult;
     res_metaData := metaData infResult;
     res_payload := res_payload result |}.

(** The model adapter ([ModelBase]), an interface implemented elsewhere. *)
Class ModelBase := {
  getOutputsNames : list string;
  preprocess : InputData → nat → InternalModelDataPtr;
  postprocess : InferenceResult → Result
}.

(** What the lambda handed to [SetCompletionCallback] captures. *)
Record Callback := mkCallback {
  cb_frameID : Z;
  cb_request : nat;
  cb_internalModelData : InternalModelDataPtr;
  cb_metaData : MetaDataPtr
}.

(** An [InferRequest] of the execution backend: the registered completion
    callback and whether an asynchronous run is under way. *)
Record InferRequest := mkInferRequest {
  completionCallback : option Callback;
  running : bool
}.

Inductive SlotState := Idle | Busy.

Global Instance SlotState_eq_dec : EqDecision SlotState.
Proof. solve_decision. Defined.

(** Modelled from the spec: [RequestsPool], whose source is not among the
    files.  A fixed collection of slots, each idle or busy; a request is
    named by its position in the pool. *)
Record Slot := mkSlot {
  slot_request : InferRequest;
  slot_state : SlotState
}.

Abbreviation RequestsPool := (list Slot).

(** The members of [AsyncPipeline] that change after construction. *)
Record State := mkState {
  inputFrameId : Z;
  outputFrameId : Z;
  completedInferenceResults : gmap Z InferenceResult;
  callbackException : option exception;
  requestsPool : RequestsPool
}.

Definition set_inputFrameId (v : Z) (s : State) : State :=
  {| inputFrameId := v; outputFrameId := outputFrameId s;
     completedInferenceResults := completedInferenceResults s;
     callbackException := callbackException s;
     requestsPool := requestsPool s |}.

Definition set_outputFrameId (v : Z) (s : State) : State :=
  {| inputFrameId := inputFrameId s; outputFrameId := v;
     completedInferenceResults := completedInferenceResults s;
     callbackException := callbackException s;
     requestsPool := requestsPool s |}.

Definition set_completedInferenceResults (m : gmap Z InferenceResult) (s : State) : State :=
  {| inputFrameId := inputFrameId s; outputFrameId := outputFrameId s;
     completedInferenceResults := m;
     callbackException := callbackException s;
     requestsPool := requestsPool s |}.

Definition set_callbackException (e : option exception) (s : State) : State :=
  {| inputFrameId := inputFrameId s; outputFrameId := outputFrameId s;
     completedInferenceResults := completedInferenceResults s;
     callbackException := e;
     requestsPool := requestsPool s |}.

Definition set_requestsPool (p : RequestsPool) (s : State) : State :=
  {| inputFrameId := inputFrameId s; outputFrameId := outputFrameId s;
     completedInferenceResults := completedInferenceResults s;
     callbackException := callbackException s;
     requestsPool := p |}.

(** ** The request pool *)

Definition idle_slot : Slot :=
  {| slot_request := {| completionCallback := None; running := false |};
     slot_state := Idle |}.

(** Modelled from the spec: the pool built by the constructor, [size] idle
    slots ([cnnConfig.maxAsyncRequests]). *)
Definition RequestsPool_new (size : nat) : RequestsPool := replicate size idle_slot.

Definition is_idle (sl : Slot) : bool := bool_decide (slot_state sl = Idle).

(** Position of the first idle slot at or after position [i]. *)
Fixpoint find_idle (p : RequestsPool) (i : nat) : option nat :=
  match p with
  | [] => None
  | sl :: rest => if is_idle sl then Some i else find_idle rest (S i)
  end.

Definition set_slot_state (st : SlotState) (sl : Slot) : Slot :=
  {| slot_request := slot_request sl; slot_state := st |}.

Definition set_slot_request (r : InferRequest) (sl : Slot) : Slot :=
  {| slot_request := r; slot_state := slot_state sl |}.

(** Modelled from the spec: [acquireIdle], "returns an idle slot and marks it
    Busy, or returns none if all slots are Busy". *)
Definition getIdleRequest (p : RequestsPool) : option nat * RequestsPool :=
  match find_idle p 0 with
  | Some i => (Some i, alter (set_slot_state Busy) i p)
  | None => (None, p)
  end.

(** Modelled from the spec: [hasIdle]. *)
Definition isIdleRequestAvailable (p : RequestsPool) : bool :=
  existsb is_idle p.

(** Modelled from the spec: [release], "marks a Busy slot Idle". *)
Definition setRequestIdle (i : nat) (p : RequestsPool) : RequestsPool :=
  alter (set_slot_state Idle) i p.

(** Number of idle slots. *)
Fixpoint idleCount (p : RequestsPool) : nat :=
  match p with
  | [] => 0
  | sl :: rest => (if is_idle sl then 1 else 0) + idleCount rest
  end.

(** Backend operations on the request at position [i]. *)
Definition SetCompletionCallback (i : nat) (cb : Callback) (p : RequestsPool) : RequestsPool :=
  alter (λ sl, set_slot_request
                 {| completionCallback := Some cb;
                    running := running (slot_request sl) |} sl) i p.

Definition StartAsync (i : nat) (p : RequestsPool) : RequestsPool :=
  alter (λ sl, set_slot_request
                 {| completionCallback := completionCallback (slot_request sl);
                    running := true |} sl) i p.

(** The backend has finished the run of request [i] and is about to invoke
    its callback. *)
Definition finishRun (i : nat) (p : RequestsPool) : RequestsPool :=
  alter (λ sl, set_slot_request
                 {| completionCallback := completionCallback (slot_request sl);
                    running := false |} sl) i p.

(** ** The monad of member functions *)

Inductive Field :=
  | FInputFrameId | FOutputFrameId | FCompletedInferenceResults
  | FCallbackException | FSlotFlags | FBackendRequest.

Global Instance Field_eq_dec : EqDecision Field.
Proof. solve_decision. Defined.

Inductive AccessKind := Load | Store.

Global Instance AccessKind_eq_dec : EqDecision AccessKind.
Proof. solve_decision. Defined.

(** One access to a member, and whether [mtx] was held by the accessing
    thread at that moment. *)
Record Access := mkAccess {
  acc_field : Field;
  acc_kind : AccessKind;
  acc_locked : bool
}.

Global Instance Access_eq_dec : EqDecision Access.
Proof. solve_decision. Defined.

(** A thread inside a member function; [undefined] is raised when the
    thread has done something the language gives no meaning to. *)
Record Thread := mkThread {
  shared : State;
  holds_mtx : bool;
  accesses : list Access;
  undefined : bool
}.

Definition Op (A : Type) : Type := Thread → A * Thread.

Global Instance Op_ret : MRet Op := λ A (a : A) t, (a, t).

Global Instance Op_bind : MBind Op :=
  λ A B (k : A → Op B) (m : Op A) t, let '(a, t') := m t in k a t'.

Abbreviation ret := (mret (M:=Op)).

Definition record_access (f : Field) (k : AccessKind) (t : Thread) : list Access :=
  accesses t ++ [mkAccess f k (holds_mtx t)].

Definition load {A} (f : Field) (get : State → A) : Op A :=
  λ t, (get (shared t),
        {| shared := shared t; holds_mtx := holds_mtx t;
           accesses := record_access f Load t; undefined := undefined t |}).

Definition store (f : Field) (upd : State → State) : Op unit :=
  λ t, (tt,
        {| shared := upd (shared t); holds_mtx := holds_mtx t;
           accesses := record_access f Store t; undefined := undefined t |}).

(** [std::lock_guard] / [std::unique_lock] on [mtx], and the end of its scope. *)
Definition lock_mtx : Op unit :=
  λ t, (tt, {| shared := shared t; holds_mtx := true; accesses := accesses t;
               undefined := undefined t |}).

Definition unlock_mtx : Op unit :=
  λ t, (tt, {| shared := shared t; holds_mtx := false; accesses := accesses t;
               undefined := undefined t |}).

(** A signed overflow: from here on the run of the thread means nothing. *)
Definition signed_overflow : Op unit :=
  λ t, (tt, {| shared := shared t; holds_mtx := holds_mtx t;
               accesses := accesses t; undefined := true |}).

(** [condVar.notify_one()] touches no member of the pipeline. *)
Definition notify_one : Op unit := ret tt.

(** Run a member function on a thread that enters it without the mutex. *)
Definition enter (s : State) : Thread :=
  {| shared := s; holds_mtx := false; accesses := []; undefined := false |}.

(** [std::map::emplace]: nothing happens when the key is already there. *)
Definition emplace `{Countable K} {V} (k : K) (v : V) (m : gmap K V) : gmap K V :=
  match m !! k with
  | Some _ => m
  | None => <[k:=v]> m
  end.

(** [x++] on a member, followed by [if (x < 0) x = 0;].  The test comes
    after the increment, so it cannot make up for an increment that has
    overflowed. *)
Definition increment_and_wrap (f : Field) (get : State → Z) (set : Z → State → State) : Op unit :=
  v ← load f get;
  match int64_incr (v : Z) with
  | None => signed_overflow
  | Some v1 =>
      store f (set v1);;
      v' ← load f get;
      if ((v' : Z) <? 0)%Z then store f (set 0%Z) else ret tt
  end.

(** What [waitForData] reports to its caller; [WaitBlocked] stands for a
    call that has not returned yet. *)
Inductive WaitOutcome :=
  | WaitBlocked
  | WaitReturned
  | WaitRethrown (e : exception).

(** ** Member functions of AsyncPipeline *)

Section AsyncPipeline.

Context {model : ModelBase}.

(** The loop of the completion callback that copies every output blob;
    [GetBlob] is [request->GetBlob] at the time of the call and may throw.
    The blobs it answers with are blobs of floats, which is what the source
    takes them for when it copies them. *)
Fixpoint copyOutputs (GetBlob : string → exception + Blob) (names : list string)
    (acc : gmap string Blob) : exception + gmap string Blob :=
  match names with
  | [] => inr acc
  | outName :: rest =>
      match GetBlob outName with
      | inl e => inl e
      | inr blob => copyOutputs GetBlob rest (emplace outName blob acc)
      end
  end.

(** The wake predicate of [waitForData]. *)
Definition waitPredicate : Op bool :=
  ce ← load FCallbackException callbackException;
  if bool_decide ((ce : option exception) ≠ None) then ret true else
  idle ← load FSlotFlags (λ s, isIdleRequestAvailable (requestsPool s));
  if (idle : bool) then ret true else
  cur ← load FOutputFrameId outputFrameId;
  it ← load FCompletedInferenceResults (λ s, completedInferenceResults s !! cur);
  ret (bool_decide ((it : option InferenceResult) ≠ None)).

(** [condVar.wait(lock, pred)]: the predicate is tested under the mutex;
    when it fails the thread sleeps with the mutex released and tests again
    at each wake-up.  [wakes] lists the shared state the thread finds at
    each successive wake-up; the answer [false] means that the thread is
    still asleep after all of them. *)
Fixpoint condVar_wait (pred : Op bool) (wakes : list State) : Op bool :=
  ok ← pred;
  if (ok : bool) then ret true else
  match wakes with
  | [] => unlock_mtx;; ret false
  | s' :: rest =>
      unlock_mtx;;
      (λ t, (tt, {| shared := s'; holds_mtx := holds_mtx t;
                    accesses := accesses t; undefined := undefined t |}));;
      lock_mtx;;
      condVar_wait pred rest
  end.

Definition waitForData (wakes : list State) : Op WaitOutcome :=
  lock_mtx;;
  woke ← condVar_wait waitPredicate wakes;
  if (woke : bool) then
    ce ← load FCallbackException callbackException;
    unlock_mtx;;
    match (ce : option exception) with
    | Some e => ret (WaitRethrown e)
    | None => ret WaitReturned
    end
  else ret WaitBlocked.

(** The lambda registered by [submitData], run by the backend when the
    request has finished.  Copying the output blobs is the step of the [try]
    block that is taken to be able to throw; it comes before the insertion
    into the map and the release of the slot. *)
Definition completionCallback_body (cb : Callback)
    (GetBlob : string → exception + Blob) : Op unit :=
  lock_mtx;;
  match copyOutputs GetBlob getOutputsNames ∅ with
  | inr outs =>
      let result := {| frameId := cb_frameID cb;
                       metaData := cb_metaData cb;
                       internalModelData := cb_internalModelData cb;
                       outputsData := outs |} in
      store FCompletedInferenceResults
        (λ s, set_completedInferenceResults
                (emplace (cb_frameID cb) result (completedInferenceResults s)) s);;
      store FSlotFlags
        (λ s, set_requestsPool (setRequestIdle (cb_request cb) (requestsPool s)) s)
  | inl e =>
      ce ← load FCallbackException callbackException;
      match (ce : option exception) with
      | None => store FCallbackException (set_callbackException (Some e))
      | Some _ => ret tt
      end
  end;;
  unlock_mtx;;
  notify_one.

Definition submitData (inputData : InputData) (metaData : MetaDataPtr) : Op Z :=
  frameID ← load FInputFrameId inputFrameId;
  request ← load FSlotFlags (λ s, (getIdleRequest (requestsPool s)).1);
  store FSlotFlags (λ s, set_requestsPool (getIdleRequest (requestsPool s)).2 s);;
  match (request : option nat) with
  | None => ret (-1)%Z
  | Some request =>
      let internalModelData := preprocess inputData request in
      store FBackendRequest
        (λ s, set_requestsPool
                (SetCompletionCallback request
                   {| cb_frameID := frameID; cb_request := request;
                      cb_internalModelData := internalModelData;
                      cb_metaData := metaData |} (requestsPool s)) s);;
      increment_and_wrap FInputFrameId inputFrameId set_inputFrameId;;
      store FBackendRequest
        (λ s, set_requestsPool (StartAsync request (requestsPool s)) s);;
      ret frameID
  end.

Definition getInferenceResult : Op InferenceResult :=
  lock_mtx;;
  cur ← load FOutputFrameId outputFrameId;
  it ← load FCompletedInferenceResults (λ s, completedInferenceResults s !! cur);
  retVal ← match (it : option InferenceResult) with
           | Some r =>
               store FCompletedInferenceResults
                 (λ s, set_completedInferenceResults
                         (delete cur (completedInferenceResults s)) s);;
               ret r
           | None => ret InferenceResult_default
           end;
  unlock_mtx;;
  (if negb (IsEmpty retVal) then
     store FOutputFrameId (set_outputFrameId (frameId retVal));;
     increment_and_wrap FOutputFrameId outputFrameId set_outputFrameId
   else ret tt);;
  ret retVal.

Definition getResult : Op (option Result) :=
  infResult ← getInferenceResult;
  if IsEmpty infResult then ret None
  else
    let result := postprocess infResult in
    ret (Some (assign_ResultBase result infResult)).

End AsyncPipeline.

(** ** Running member functions *)

(** Result and final shared state of a member function called on state [s]. *)
Definition exec {A} (op : Op A) (s : State) : A * State :=
  let '(a, t) := op (enter s) in (a, shared t).

(** The accesses a member function makes when called on state [s]. *)
Definition footprint {A} (op : Op A) (s : State) : list Access :=
  accesses (op (enter s)).2.

(** Does the call of a member function on state [s] keep to what the
    language defines? *)
Definition defined {A} (op : Op A) (s : State) : bool :=
  negb (undefined (op (enter s)).2).

(** Modelled from the spec: the state after construction.  The initial
    values of the two cursors are in the missing header; the spec numbers
    submissions from 0. *)
Definition AsyncPipeline_new (maxAsyncRequests : nat) : State :=
  {| inputFrameId := 0; outputFrameId := 0;
     completedInferenceResults := ∅;
     callbackException := None;
     requestsPool := RequestsPool_new maxAsyncRequests |}.

(** The value of a cursor after [x++; if (x < 0) x = 0;].  Where the
    increment is undefined the cursor is shown as it was. *)
Definition next_frameId (v : Z) : Z :=
  match int64_incr v with
  | Some v1 => if (v1 <? 0)%Z then 0%Z else v1
  | None => v
  end.

(** ** Interleavings *)

(** What can happen to a pipeline: calls made by the caller's thread and
    completions signalled by the backend.  The callback body runs under
    [mtx], so each event is one step. *)
Inductive Event :=
  | EvSubmit (inputData : InputData) (metaData : MetaDataPtr)
  | EvComplete (request : nat) (GetBlob : string → exception + Blob)
  | EvGetResult
  | EvWaitForData.

Inductive Output :=
  | OutSubmit (frameID : Z)
  | OutComplete (ok : bool)
  | OutResult (r : option Result)
  | OutWait (w : WaitOutcome).

Section Interleavings.

Context {model : ModelBase}.

(** Does the callback body get through its [try] block? *)
Definition callbackSucceeds (GetBlob : string → exception + Blob) : bool :=
  match copyOutputs GetBlob getOutputsNames ∅ with
  | inr _ => true
  | inl _ => false
  end.

(** One event.  [None] means that the event cannot happen in [s]: the
    backend invokes a callback once per [StartAsync], on a request that is
    running, a blocked [waitForData] does not return, and a call that
    overflows a cursor has no defined outcome. *)
Definition step (s : State) (ev : Event) : option (Output * State) :=
  match ev with
  | EvSubmit inputData metaData =>
      if defined (submitData inputData metaData) s then
        let '(frameID, s') := exec (submitData inputData metaData) s in
        Some (OutSubmit frameID, s')
      else None
  | EvComplete request GetBlob =>
      match requestsPool s !! request with
      | Some sl =>
          match running (slot_request sl), completionCallback (slot_request sl) with
          | true, Some cb =>
              let s1 := set_requestsPool (finishRun request (requestsPool s)) s in
              Some (OutComplete (callbackSucceeds GetBlob),
                    (exec (completionCallback_body cb GetBlob) s1).2)
          | _, _ => None
          end
      | None => None
      end
  | EvGetResult =>
      if defined getResult s then
        let '(r, s') := exec getResult s in Some (OutResult r, s')
      else None
  | EvWaitForData =>
      match (exec (waitForData []) s).1 with
      | WaitBlocked => None
      | w => Some (OutWait w, s)
      end
  end.

Fixpoint run (s : State) (evs : list Event) : option (list Output * State) :=
  match evs with
  | [] => Some ([], s)
  | ev :: rest =>
      match step s ev with
      | Some (o, s') =>
          match run s' rest with
          | Some (os, s'') => Some (o :: os, s'')
          | None => None
          end
      | None => None
      end
  end.

(** The state a run ends in and what it puts out, for runs that can
    happen. *)
Definition after (s : State) (evs : list Event) : State :=
  match run s evs with
  | Some (_, s') => s'
  | None => s
  end.

Definition outputs (s : State) (evs : list Event) : list Output :=
  match run s evs with
  | Some (os, _) => os
  | None => []
  end.

End Interleavings.

(** Bookkeeping on the outputs of a run. *)
Definition is_accepted (o : Output) : bool :=
  match o with OutSubmit f => negb (f =? -1)%Z | _ => false end.

Definition is_released (o : Output) : bool :=
  match o with OutComplete true => true | _ => false end.

Fixpoint tally (f : Output → bool) (os : list Output) : nat :=
  match os with
  | [] => 0
  | o :: rest => (if f o then 1 else 0) + tally f rest
  end.

(** Accepted submissions and completions that released their slot, among the
    outputs of a run. *)
Definition accepted (os : list Output) : nat := tally is_accepted os.
Definition released (os : list Output) : nat := tally is_released os.

(** Sequence numbers of the results handed to the caller, in order. *)
Fixpoint retrieved (os : list Output) : list Z :=
  match os with
  | [] => []
  | OutResult (Some r) :: rest => res_frameId r :: retrieved rest
  | _ :: rest => retrieved rest
  end.

(** The three-way condition that ends the wait of [waitForData]. *)
Definition wakeCondition (s : State) : bool :=
  bool_decide (callbackException s ≠ None)
  || isIdleRequestAvailable (requestsPool s)
  || bool_decide (completedInferenceResults s !! outputFrameId s ≠ None).

(** The first of the states seen by a waiting thread, at the call and then
    at each wake-up, in which the condition holds. *)
Fixpoint first_ready (s : State) (wakes : list State) : option State :=
  if wakeCondition s then Some s
  else match wakes with
       | [] => None
       | s' :: rest => first_ready s' rest
       end.

(** The three conditions, as the specification words them. *)
Definition exceptionStored (s : State) : Prop := callbackException s ≠ None.

Definition idleSlotExists (s : State) : Prop :=
  ∃ i sl, requestsPool s !! i = Some sl ∧ slot_state sl = Idle.

Definition cursorEntryPresent (s : State) : Prop :=
  is_Some (completedInferenceResults s !! outputFrameId s).

(** ** Invariants *)

(** An entry of the map sits under its own sequence number, which is not
    negative. *)
Definition wf_entry (k : Z) (r : InferenceResult) : Prop :=
  frameId r = k ∧ (0 ≤ k ≤ INT64_MAX)%Z.

(** The callback registered on the request at position [i] names that
    request and a non-negative sequence number; a running request is busy. *)
Definition wf_slot (i : nat) (sl : Slot) : Prop :=
  match completionCallback (slot_request sl) with
  | Some cb => cb_request cb = i ∧ (0 ≤ cb_frameID cb ≤ INT64_MAX)%Z
  | None => True
  end
  ∧ (running (slot_request sl) = true → slot_state sl = Busy).

Fixpoint wf_pool_from (i : nat) (p : RequestsPool) : Prop :=
  match p with
  | [] => True
  | sl :: rest => wf_slot i sl ∧ wf_pool_from (S i) rest
  end.

(** What every state of a pipeline satisfies, whatever has happened to it. *)
Definition wf (s : State) : Prop :=
  (0 ≤ inputFrameId s ≤ INT64_MAX)%Z
  ∧ (0 ≤ outputFrameId s ≤ INT64_MAX)%Z
  ∧ map_Forall wf_entry (completedInferenceResults s)
  ∧ wf_pool_from 0 (requestsPool s).

Global Instance wf_entry_dec k r : Decision (wf_entry k r).
Proof. unfold wf_entry. apply _. Defined.

Global Instance wf_slot_dec i sl : Decision (wf_slot i sl).
Proof.
  unfold wf_slot. destruct (completionCallback (slot_request sl)); apply _.
Defined.

Global Instance wf_pool_from_dec p : ∀ i, Decision (wf_pool_from i p).
Proof. induction p as [|sl rest IH]; intros i; cbn; apply _. Defined.

Global Instance wf_dec s : Decision (wf s).
Proof. unfold wf. apply _. Defined.

(** While the input cursor is below the top of its range, everything stored or captured
    lies below it and the output cursor has not passed it. *)
Definition ordered (s : State) : Prop :=
  (outputFrameId s ≤ inputFrameId s)%Z
  ∧ (∀ k r, completedInferenceResults s !! k = Some r → (k < inputFrameId s)%Z)
  ∧ (∀ i sl cb, requestsPool s !! i = Some sl →
       completionCallback (slot_request sl) = Some cb →
       (cb_frameID cb < inputFrameId s)%Z).

(** Every sequence number between the cursors is either waiting in the map
    or owned by a busy slot. *)
Definition covered (s : State) : Prop :=
  ∀ k, (outputFrameId s ≤ k < inputFrameId s)%Z →
    is_Some (completedInferenceResults s !! k)
    ∨ ∃ i sl cb, requestsPool s !! i = Some sl ∧ slot_state sl = Busy
        ∧ completionCallback (slot_request sl) = Some cb ∧ cb_frameID cb = k.

(** Every stored result and every registered callback carries a sequence
    number and metadata that were handed out and in together; [hist] lists
    those pairs. *)
Definition meta_ok (hist : list (Z * MetaDataPtr)) (s : State) : Prop :=
  (∀ k r, completedInferenceResults s !! k = Some r →
          (frameId r, metaData r) ∈ hist)
  ∧ (∀ i sl cb, requestsPool s !! i = Some sl →
       completionCallback (slot_request sl) = Some cb →
       (cb_frameID cb, cb_metaData cb) ∈ hist).

(** The sequence number and the metadata of each accepted submission, in
    order, read off the events and outputs of a run. *)
Fixpoint submissions (evs : list Event) (os : list Output) : list (Z * MetaDataPtr) :=
  match evs, os with
  | EvSubmit _ metaData :: evs', OutSubmit frameID :: os' =>
      if is_accepted (OutSubmit frameID)
      then (frameID, metaData) :: submissions evs' os'
      else submissions evs' os'
  | _ :: evs', _ :: os' => submissions evs' os'
  | _, _ => []
  end.

(** The metadata carried by the results handed to the caller, in order. *)
Fixpoint retrievedMetaData (os : list Output) : list (Z * MetaDataPtr) :=
  match os with
  | [] => []
  | OutResult (Some r) :: rest => (res_frameId r, res_metaData r) :: retrievedMetaData rest
  | _ :: rest => retrievedMetaData rest
  end.

(** ** Transitions *)

(** A slot just handed out by [submitData], and a slot whose callback has
    been invoked. *)
Definition acquired (cb : Callback) : Slot :=
  {| slot_request := {| completionCallback := Some cb; running := true |};
     slot_state := Busy |}.

Definition finished (cb : Callback) (st : SlotState) : Slot :=
  {| slot_request := {| completionCallback := Some cb; running := false |};
     slot_state := st |}.

Section Transitions.

Context {model : ModelBase}.

(** The steps of a well-formed pipeline, case by case. *)
Inductive transition (s : State) : Event → Output → State → Prop :=
  | T_reject inputData metaData :
      find_idle (requestsPool s) 0 = None →
      transition s (EvSubmit inputData metaData) (OutSubmit (-1)) s
  | T_accept inputData metaData request sl :
      find_idle (requestsPool s) 0 = Some request →
      requestsPool s !! request = Some sl →
      slot_state sl = Idle →
      transition s (EvSubmit inputData metaData) (OutSubmit (inputFrameId s))
        {| inputFrameId := next_frameId (inputFrameId s);
           outputFrameId := outputFrameId s;
           completedInferenceResults := completedInferenceResults s;
           callbackException := callbackException s;
           requestsPool :=
             <[request :=
                 acquired {| cb_frameID := inputFrameId s;
                             cb_request := request;
                             cb_internalModelData := preprocess inputData request;
                             cb_metaData := metaData |}]> (requestsPool s) |}
  | T_complete_ok request GetBlob sl cb outs :
      requestsPool s !! request = Some sl →
      running (slot_request sl) = true →
      completionCallback (slot_request sl) = Some cb →
      copyOutputs GetBlob getOutputsNames ∅ = inr outs →
      transition s (EvComplete request GetBlob) (OutComplete true)
        {| inputFrameId := inputFrameId s;
           outputFrameId := outputFrameId s;
           completedInferenceResults :=
             emplace (cb_frameID cb)
               {| frameId := cb_frameID cb; metaData := cb_metaData cb;
                  internalModelData := cb_internalModelData cb;
                  outputsData := outs |}
               (completedInferenceResults s);
           callbackException := callbackException s;
           requestsPool := <[request := finished cb Idle]> (requestsPool s) |}
  | T_complete_fail request GetBlob sl cb e :
      requestsPool s !! request = Some sl →
      running (slot_request sl) = true →
      completionCallback (slot_request sl) = Some cb →
      copyOutputs GetBlob getOutputsNames ∅ = inl e →
      transition s (EvComplete request GetBlob) (OutComplete false)
        {| inputFrameId := inputFrameId s;
           outputFrameId := outputFrameId s;
           completedInferenceResults := completedInferenceResults s;
           callbackException :=
             match callbackException s with
             | None => Some e
             | Some e0 => Some e0
             end;
           requestsPool :=
             <[request := finished cb (slot_state sl)]> (requestsPool s) |}
  | T_get_none :
      completedInferenceResults s !! outputFrameId s = None →
      transition s EvGetResult (OutResult None) s
  | T_get_some r :
      completedInferenceResults s !! outputFrameId s = Some r →
      frameId r = outputFrameId s →
      transition s EvGetResult
        (OutResult (Some (assign_ResultBase (postprocess r) r)))
        {| inputFrameId := inputFrameId s;
           outputFrameId := next_frameId (outputFrameId s);
           completedInferenceResults :=
             delete (outputFrameId s) (completedInferenceResults s);
           callbackException := callbackException s;
           requestsPool := requestsPool s |}
  | T_wait :
      wakeCondition s = true →
      transition s EvWaitForData
        (OutWait match callbackException s with
                 | Some e => WaitRethrown e
                 | None => WaitReturned
                 end) s.

End Transitions.

(** ** Lock discipline *)

(** The members the mutex is meant to protect. *)
Definition is_shared_member (f : Field) : bool :=
  match f with
  | FBackendRequest => false
  | _ => true
  end.

(** Every access to a protected member was made with [mtx] held. *)
Definition all_under_mtx (acc : list Access) : bool :=
  forallb (λ a, implb (is_shared_member (acc_field a)) (acc_locked a)) acc.

(** The same for the members in [fs] only. *)
Definition under_mtx_on (fs : list Field) (acc : list Access) : bool :=
  forallb (λ a, implb (bool_decide (acc_field a ∈ fs)) (acc_locked a)) acc.

(** ** A concrete model adapter and backend answers, for examples *)

Definition demoModel : ModelBase :=
  {| getOutputsNames := ["detection_out"];
     preprocess := λ inputData request, inputData;
     postprocess := λ r, {| res_frameId := -1; res_metaData := nullptr;
                            res_payload := [frameId r] |} |}.

Definition blobsReady : string → exception + Blob := λ _, inr [1%Z; 2%Z].

Definition blobsThrow (what : exception) : string → exception + Blob := λ _, inl what.

(** The scenario of the specification: a pool of two slots; A and B are
    accepted and C is rejected; B completes before A; A's result is handed
    over first; C is submitted again and completes; then B's and C's results
    follow. *)
Definition scenario : list Event :=
  [EvSubmit 10 100; EvSubmit 11 101; EvSubmit 12 102;
   EvComplete 1 blobsReady; EvGetResult;
   EvComplete 0 blobsReady; EvWaitForData; EvGetResult;
   EvSubmit 12 102; EvComplete 0 blobsReady;
   EvGetResult; EvGetResult].

(** ** Slots in flight and slots lost *)

Definition is_failed (o : Output) : bool :=
  match o with OutComplete false => true | _ => false end.

(** Completions whose continuation failed, among the outputs of a run. *)
Definition failed (os : list Output) : nat := tally is_failed os.

(** Number of requests with an asynchronous run under way. *)
Fixpoint runningCount (p : RequestsPool) : nat :=
  match p with
  | [] => 0
  | sl :: rest => (if running (slot_request sl) then 1 else 0) + runningCount rest
  end.

(** The sequence number of every running request lies between the cursors,
    is not yet in the map, and belongs to no other running request. *)
Definition inflight_fresh (s : State) : Prop :=
  ∀ i sl cb,
    requestsPool s !! i = Some sl →
    running (slot_request sl) = true →
    completionCallback (slot_request sl) = Some cb →
    (outputFrameId s ≤ cb_frameID cb < inputFrameId s)%Z
    ∧ completedInferenceResults s !! cb_frameID cb = None
    ∧ ∀ j sl' cb',
        requestsPool s !! j = Some sl' →
        running (slot_request sl') = true →
        completionCallback (slot_request sl') = Some cb' →
        cb_frameID cb' = cb_frameID cb → j = i.

(** Sequence number [f] has been handed out, has not been retrieved, is not
    in the map and is carried by no running request: its result can no
    longer arrive. *)
Definition stalled (f : Z) (s : State) : Prop :=
  (outputFrameId s ≤ f < inputFrameId s)%Z
  ∧ completedInferenceResults s !! f = None
  ∧ ∀ i sl cb,
      requestsPool s !! i = Some sl →
      running (slot_request sl) = true →
      completionCallback (slot_request sl) = Some cb →
      cb_frameID cb ≠ f.

(** ** Construction *)

(** The fields of [CnnConfig] that the constructor reads. *)
Record CnnConfig := mkCnnConfig {
  devices : string;
  cpuExtensionsPath : string;
  clKernelsConfigPath : string;
  execNetworkConfig : list (string * string);
  maxAsyncRequests : nat
}.

(** What the constructor asks of the inference engine and of the model
    adapter, in the order of the calls. *)
Inductive SetupCall :=
  | GetVersions (devs : string)
  | AddExtension (path : string) (device : string)
  | SetConfig (configFile : string) (device : string)
  | ReadNetwork (modelFileName : string)
  | Reshape (shapes : gmap string (list nat))
  | PrepareInputsOutputs
  | LoadNetwork (devs : string) (config : list (string * string))
  | CreateRequestsPool (size : nat)
  | OnLoadCompleted (requests : nat).

(** [shape.second[0] = 1].  The source indexes the vector unchecked: for an
    input of rank 0 the write is out of range and the behaviour is
    undefined, there is no shape to give. *)
Definition setBatchOne (dims : list nat) : option (list nat) :=
  match dims with
  | [] => None
  | _ :: rest => Some (1 :: rest)
  end.

(** The loop over [cnnNetwork.getInputShapes()]; it has a defined outcome
    only if every write of the loop has one. *)
Definition forceBatchOne (shapes : gmap string (list nat)) :
    option (gmap string (list nat)) :=
  if decide (map_Forall (λ _ dims, is_Some (setBatchOne dims)) shapes)
  then Some (omap setBatchOne shapes)
  else None.

(** The constructor: [modelFileName] is [model->getModelFileName()] and
    [inputShapes] is what the network read from that file reports.  [None]
    stands for a construction whose behaviour is undefined. *)
Definition AsyncPipeline_ctor (modelFileName : string) (cnnConfig : CnnConfig)
    (inputShapes : gmap string (list nat)) : option (list SetupCall * State) :=
  match forceBatchOne inputShapes with
  | None => None
  | Some reshaped =>
      Some ([GetVersions (devices cnnConfig)]
            ++ (if decide (cpuExtensionsPath cnnConfig = EmptyString) then []
                else [AddExtension (cpuExtensionsPath cnnConfig) "CPU"])
            ++ (if decide (clKernelsConfigPath cnnConfig = EmptyString) then []
                else [SetConfig (clKernelsConfigPath cnnConfig) "GPU"])
            ++ [ReadNetwork modelFileName;
                Reshape reshaped;
                PrepareInputsOutputs;
                LoadNetwork (devices cnnConfig) (execNetworkConfig cnnConfig);
                CreateRequestsPool (maxAsyncRequests cnnConfig);
                OnLoadCompleted (maxAsyncRequests cnnConfig)],
            AsyncPipeline_new (maxAsyncRequests cnnConfig))
  end.

(** The shapes handed to [reshape], if the call was made. *)
Fixpoint reshapedTo (calls : list SetupCall) : option (gmap string (list nat)) :=
  match calls with
  | [] => None
  | Reshape shapes :: _ => Some shapes
  | _ :: rest => reshapedTo rest
  end.

(** ** Member functions as equations *)

(** Unfold the monad down to pairs of results and threads. *)
Ltac run_op :=
  unfold exec, footprint, defined, increment_and_wrap, signed_overflow,
    notify_one, lock_mtx, unlock_mtx,
    load, store, record_access, enter, mbind, Op_bind, mret, Op_ret;
  cbn.

Section Equations.

Context {model : ModelBase}.

Lemma set_requestsPool_id s : set_requestsPool (requestsPool s) s = s.
Proof. by destruct s. Qed.

Lemma submitData_eq inputData metaData s :
  exec (submitData inputData metaData) s =
  match find_idle (requestsPool s) 0 with
  | None => ((-1)%Z, s)
  | Some request =>
      (inputFrameId s,
       {| inputFrameId := next_frameId (inputFrameId s);
          outputFrameId := outputFrameId s;
          completedInferenceResults := completedInferenceResults s;
          callbackException := callbackException s;
          requestsPool :=
            StartAsync request
              (SetCompletionCallback request
                 {| cb_frameID := inputFrameId s; cb_request := request;
                    cb_internalModelData := preprocess inputData request;
                    cb_metaData := metaData |}
                 (alter (set_slot_state Busy) request (requestsPool s))) |})
  end.
Proof.
  unfold submitData, getIdleRequest, next_frameId. run_op.
  destruct (find_idle (requestsPool s) 0) as [request|]; cbn.
  - destruct (int64_incr (inputFrameId s)) as [v1|]; cbn; [|reflexivity].
    destruct (v1 <? 0)%Z; reflexivity.
  - by destruct s.
Qed.

Lemma submitData_defined inputData metaData s :
  defined (submitData inputData metaData) s =
  match find_idle (requestsPool s) 0 with
  | None => true
  | Some _ => (inputFrameId s <? INT64_MAX)%Z
  end.
Proof.
  unfold submitData, getIdleRequest. run_op.
  destruct (find_idle (requestsPool s) 0) as [request|]; cbn; [|reflexivity].
  unfold int64_incr.
  destruct (inputFrameId s <? INT64_MAX)%Z; cbn; [|reflexivity].
  by destruct (inputFrameId s + 1 <? 0)%Z.
Qed.

Lemma completionCallback_eq cb GetBlob s :
  (exec (completionCallback_body cb GetBlob) s).2 =
  match copyOutputs GetBlob getOutputsNames ∅ with
  | inr outs =>
      {| inputFrameId := inputFrameId s;
         outputFrameId := outputFrameId s;
         completedInferenceResults :=
           emplace (cb_frameID cb)
             {| frameId := cb_frameID cb; metaData := cb_metaData cb;
                internalModelData := cb_internalModelData cb;
                outputsData := outs |}
             (completedInferenceResults s);
         callbackException := callbackException s;
         requestsPool := setRequestIdle (cb_request cb) (requestsPool s) |}
  | inl e =>
      match callbackException s with
      | None => set_callbackException (Some e) s
      | Some _ => s
      end
  end.
Proof.
  unfold completionCallback_body. run_op.
  destruct (copyOutputs GetBlob getOutputsNames ∅) as [e|outs]; cbn.
  - destruct (callbackException s); reflexivity.
  - reflexivity.
Qed.

Lemma getInferenceResult_eq s :
  exec getInferenceResult s =
  match completedInferenceResults s !! outputFrameId s with
  | None => (InferenceResult_default, s)
  | Some r =>
      (r,
       if IsEmpty r then
         set_completedInferenceResults
           (delete (outputFrameId s) (completedInferenceResults s)) s
       else
         {| inputFrameId := inputFrameId s;
            outputFrameId := next_frameId (frameId r);
            completedInferenceResults :=
              delete (outputFrameId s) (completedInferenceResults s);
            callbackException := callbackException s;
            requestsPool := requestsPool s |})
  end.
Proof.
  unfold getInferenceResult, next_frameId. run_op.
  destruct (completedInferenceResults s !! outputFrameId s) as [r|]; cbn.
  - destruct (IsEmpty r); cbn; [reflexivity|].
    destruct (int64_incr (frameId r)) as [v1|]; cbn.
    + destruct (v1 <? 0)%Z; reflexivity.
    + by destruct s.
  - by destruct s.
Qed.

Lemma getInferenceResult_defined s :
  defined getInferenceResult s =
  match completedInferenceResults s !! outputFrameId s with
  | None => true
  | Some r => IsEmpty r || (frameId r <? INT64_MAX)%Z
  end.
Proof.
  unfold getInferenceResult. run_op.
  destruct (completedInferenceResults s !! outputFrameId s) as [r|]; cbn;
    [|reflexivity].
  destruct (IsEmpty r); cbn; [reflexivity|].
  unfold int64_incr.
  destruct (frameId r <? INT64_MAX)%Z; cbn; [|reflexivity].
  by destruct (frameId r + 1 <? 0)%Z.
Qed.

Lemma getResult_eq s :
  exec getResult s =
  let '(infResult, s') := exec getInferenceResult s in
  (if IsEmpty infResult then None
   else Some (assign_ResultBase (postprocess infResult) infResult), s').
Proof.
  unfold getResult, exec, mbind, Op_bind, mret, Op_ret.
  destruct (getInferenceResult (enter s)) as [infResult t].
  destruct (IsEmpty infResult); reflexivity.
Qed.

Lemma getResult_defined s :
  defined getResult s = defined getInferenceResult s.
Proof.
  unfold getResult, defined, mbind, Op_bind, mret, Op_ret.
  destruct (getInferenceResult (enter s)) as [infResult t].
  destruct (IsEmpty infResult); reflexivity.
Qed.

Lemma waitPredicate_run t :
  ∃ acc,
    waitPredicate t =
      (wakeCondition (shared t),
       {| shared := shared t; holds_mtx := holds_mtx t;
          accesses := accesses t ++ acc; undefined := undefined t |})
    ∧ Forall (λ a, acc_locked a = holds_mtx t) acc.
Proof.
  unfold waitPredicate, wakeCondition. run_op.
  destruct (bool_decide (callbackException (shared t) ≠ None)); cbn.
  { eexists; split; [reflexivity|]. repeat constructor. }
  destruct (isIdleRequestAvailable (requestsPool (shared t))); cbn.
  { eexists; split; [rewrite <- app_assoc; reflexivity|]. repeat constructor. }
  eexists; split; [rewrite <- !app_assoc; reflexivity|]. repeat constructor.
Qed.

Lemma condVar_wait_run wakes :
  ∀ t, holds_mtx t = true →
  ∃ acc sh woke,
    condVar_wait waitPredicate wakes t =
      (woke, {| shared := sh; holds_mtx := woke; accesses := accesses t ++ acc;
                undefined := undefined t |})
    ∧ Forall (λ a, acc_locked a = true) acc
    ∧ match first_ready (shared t) wakes with
      | Some s' => woke = true ∧ sh = s'
      | None => woke = false
      end.
Proof.
  induction wakes as [|s' rest IH]; intros t Ht.
  - destruct (waitPredicate_run t) as (acc & Hp & Hacc). rewrite Ht in Hacc.
    cbn. unfold mbind, Op_bind at 1. rewrite Hp.
    destruct (wakeCondition (shared t)); cbn.
    + exists acc, (shared t), true. rewrite Ht. auto.
    + exists acc, (shared t), false. auto.
  - destruct (waitPredicate_run t) as (acc & Hp & Hacc). rewrite Ht in Hacc.
    cbn. unfold mbind, Op_bind at 1. rewrite Hp.
    destruct (wakeCondition (shared t)); cbn.
    + exists acc, (shared t), true. rewrite Ht. auto.
    + run_op.
      destruct (IH {| shared := s'; holds_mtx := true;
                      accesses := accesses t ++ acc;
                      undefined := undefined t |} eq_refl)
        as (acc' & sh & woke & Hw & Hacc' & Hfr).
      fold (condVar_wait waitPredicate rest). rewrite Hw. cbn in *.
      exists (acc ++ acc'), sh, woke. rewrite app_assoc.
      split; [reflexivity|]. split; [|exact Hfr].
      apply Forall_app; auto.
Qed.

Lemma waitForData_run wakes s :
  ∃ acc sh,
    waitForData wakes (enter s) =
      (match first_ready s wakes with
       | None => WaitBlocked
       | Some s' =>
           match callbackException s' with
           | Some e => WaitRethrown e
           | None => WaitReturned
           end
       end,
       {| shared := sh; holds_mtx := false; accesses := acc;
          undefined := false |})
    ∧ Forall (λ a, acc_locked a = true) acc
    ∧ (∀ s', first_ready s wakes = Some s' → sh = s').
Proof.
  unfold waitForData. run_op.
  destruct (condVar_wait_run wakes
              {| shared := s; holds_mtx := true; accesses := [];
                 undefined := false |} eq_refl)
    as (acc & sh & woke & Hw & Hacc & Hfr).
  rewrite Hw. cbn in *.
  destruct (first_ready s wakes) as [s'|].
  - destruct Hfr as [-> ->]. cbn.
    exists (acc ++ [mkAccess FCallbackException Load true]), s'.
    split; [by destruct (callbackException s')|].
    split; [|by intros ? [= ->]].
    apply Forall_app; split; [done|]. by repeat constructor.
  - subst woke. cbn. exists acc, sh. by repeat split.
Qed.

Lemma waitForData_eq wakes s :
  (exec (waitForData wakes) s).1 =
  match first_ready s wakes with
  | None => WaitBlocked
  | Some s' =>
      match callbackException s' with
      | Some e => WaitRethrown e
      | None => WaitReturned
      end
  end.
Proof.
  unfold exec. destruct (waitForData_run wakes s) as (acc & sh & Hr & _).
  by rewrite Hr.
Qed.

End Equations.

(** ** Machine arithmetic *)

Lemma int64_incr_small v : (v < INT64_MAX)%Z → int64_incr v = Some (v + 1)%Z.
Proof.
  intros Hv. unfold int64_incr. destruct (Z.ltb_spec v INT64_MAX); [done|lia].
Qed.

Lemma int64_incr_max v : (INT64_MAX ≤ v)%Z → int64_incr v = None.
Proof.
  intros Hv. unfold int64_incr. destruct (Z.ltb_spec v INT64_MAX); [lia|done].
Qed.

Lemma next_frameId_small v : (0 ≤ v < INT64_MAX)%Z → next_frameId v = (v + 1)%Z.
Proof.
  intros Hv. unfold next_frameId. rewrite int64_incr_small by lia.
  destruct (Z.ltb_spec (v + 1) 0); [lia|reflexivity].
Qed.

Lemma next_frameId_range v :
  (0 ≤ v ≤ INT64_MAX)%Z → (0 ≤ next_frameId v ≤ INT64_MAX)%Z.
Proof.
  intros Hv. destruct (decide (v = INT64_MAX)) as [->|Hne].
  - unfold next_frameId. by rewrite int64_incr_max.
  - rewrite next_frameId_small by lia. lia.
Qed.

(** ** The request pool *)

Section Pool.

Implicit Types (p : RequestsPool) (sl : Slot).

Lemma find_idle_Some p : ∀ i j,
  find_idle p i = Some j →
  i ≤ j ∧ ∃ sl, p !! (j - i) = Some sl ∧ slot_state sl = Idle.
Proof.
  induction p as [|sl rest IH]; intros i j Hf; [done|].
  cbn in Hf. unfold is_idle in Hf. case_bool_decide as Hidle.
  - injection Hf as <-. split; [lia|]. exists sl. by rewrite Nat.sub_diag.
  - destruct (IH _ _ Hf) as (Hle & sl' & Hl & Hs). split; [lia|].
    exists sl'. split; [|done].
    replace (j - i) with (S (j - S i)) by lia. done.
Qed.

Lemma find_idle_None p i : find_idle p i = None ↔ idleCount p = 0.
Proof.
  revert i. induction p as [|sl rest IH]; intros i; [done|].
  cbn. destruct (is_idle sl); cbn; [split; [done|lia]|]. apply IH.
Qed.

Lemma isIdleRequestAvailable_count p :
  isIdleRequestAvailable p = false ↔ idleCount p = 0.
Proof.
  unfold isIdleRequestAvailable.
  induction p as [|sl rest IH]; [done|].
  cbn. destruct (is_idle sl); cbn; [split; [done|lia]|]. apply IH.
Qed.

Lemma isIdleRequestAvailable_find p :
  isIdleRequestAvailable p = false ↔ find_idle p 0 = None.
Proof. by rewrite isIdleRequestAvailable_count, find_idle_None. Qed.

Lemma idleCount_le_length p : idleCount p ≤ length p.
Proof.
  induction p as [|sl rest IH]; [done|]. cbn. destruct (is_idle sl); lia.
Qed.

Lemma idleCount_replicate n : idleCount (RequestsPool_new n) = n.
Proof.
  unfold RequestsPool_new. induction n as [|n IH]; [done|].
  cbn. by rewrite IH.
Qed.

(** Changing one slot changes the count by what that slot contributes. *)
Lemma idleCount_alter (f : Slot → Slot) p : ∀ i sl,
  p !! i = Some sl →
  idleCount (alter f i p) + (if is_idle sl then 1 else 0) =
  idleCount p + (if is_idle (f sl) then 1 else 0).
Proof.
  induction p as [|sl0 rest IH]; intros i sl Hl; [done|].
  destruct i as [|i]; cbn in *.
  - injection Hl as ->. lia.
  - specialize (IH _ _ Hl). lia.
Qed.

(** With every slot idle no slot is busy. *)
Lemma idleCount_full p i sl :
  idleCount p = length p → p !! i = Some sl → slot_state sl = Idle.
Proof.
  revert i. induction p as [|sl0 rest IH]; intros i Hc Hl; [done|].
  pose proof (idleCount_le_length rest) as Hle.
  cbn in Hc. unfold is_idle in Hc at 1.
  destruct i as [|i]; cbn in Hl.
  - injection Hl as ->. case_bool_decide; [done|lia].
  - apply (IH i); [|done]. case_bool_decide; lia.
Qed.

Lemma wf_pool_from_lookup p : ∀ i,
  wf_pool_from i p ↔ ∀ j sl, p !! j = Some sl → wf_slot (i + j) sl.
Proof.
  induction p as [|sl0 rest IH]; intros i; cbn.
  - split; [by intros _ j sl|done].
  - rewrite IH. split.
    + intros [H0 Hrest] [|j] sl Hl; cbn in Hl.
      * injection Hl as <-. by rewrite Nat.add_0_r.
      * replace (i + S j) with (S i + j) by lia. by apply Hrest.
    + intros H. split.
      * specialize (H 0 sl0 eq_refl). by rewrite Nat.add_0_r in H.
      * intros j sl Hl. replace (S i + j) with (i + S j) by lia. by apply H.
Qed.

Lemma wf_pool_lookup p :
  wf_pool_from 0 p ↔ ∀ j sl, p !! j = Some sl → wf_slot j sl.
Proof. apply (wf_pool_from_lookup p 0). Qed.

Lemma wf_pool_new n : wf_pool_from 0 (RequestsPool_new n).
Proof.
  apply wf_pool_lookup. intros j sl Hl.
  apply lookup_replicate in Hl as [-> _]. by split.
Qed.

End Pool.

(** ** Steps of a well-formed pipeline *)

Lemma alter_known {A} (f : A → A) (l : list A) i x :
  l !! i = Some x → alter f i l = <[i := f x]> l.
Proof.
  intros Hl. rewrite list_insert_alter. apply list_alter_ext; [|done].
  intros y Hy. congruence.
Qed.

Section Steps.

Context {model : ModelBase}.

Lemma wf_slot_at s i sl :
  wf s → requestsPool s !! i = Some sl → wf_slot i sl.
Proof. intros (_ & _ & _ & Hp) Hl. by apply (proj1 (wf_pool_lookup _) Hp). Qed.

Lemma wf_entry_at s k r :
  wf s → completedInferenceResults s !! k = Some r →
  frameId r = k ∧ (0 ≤ k ≤ INT64_MAX)%Z.
Proof. intros (_ & _ & Hm & _) Hl. exact (Hm k r Hl). Qed.

Lemma IsEmpty_entry s k r :
  wf s → completedInferenceResults s !! k = Some r → IsEmpty r = false.
Proof.
  intros Hwf Hl. destruct (wf_entry_at _ _ _ Hwf Hl) as [Hf Hk].
  unfold IsEmpty. apply Z.ltb_ge. lia.
Qed.

Lemma submit_pool request cb p sl :
  p !! request = Some sl →
  StartAsync request
    (SetCompletionCallback request cb (alter (set_slot_state Busy) request p))
  = <[request := acquired cb]> p.
Proof.
  intros Hl. unfold StartAsync, SetCompletionCallback.
  rewrite !list_alter_alter_eq. by rewrite (alter_known _ _ _ _ Hl).
Qed.

Lemma complete_pool request cb p sl :
  p !! request = Some sl →
  completionCallback (slot_request sl) = Some cb →
  setRequestIdle request (finishRun request p) = <[request := finished cb Idle]> p
  ∧ finishRun request p = <[request := finished cb (slot_state sl)]> p.
Proof.
  intros Hl Hcb. unfold setRequestIdle, finishRun.
  rewrite !list_alter_alter_eq, !(alter_known _ _ _ _ Hl). cbn.
  unfold finished. by rewrite Hcb.
Qed.

Lemma step_transition s ev o s' :
  wf s → step s ev = Some (o, s') → transition s ev o s'.
Proof.
  intros Hwf Hstep.
  destruct ev as [inputData metaData|request GetBlob| |]; unfold step in Hstep.
  - destruct (defined (submitData inputData metaData) s); [|done].
    rewrite submitData_eq in Hstep.
    destruct (find_idle (requestsPool s) 0) as [request|] eqn:Hfind.
    + injection Hstep as <- <-.
      destruct (find_idle_Some _ _ _ Hfind) as (_ & sl & Hl & Hidle).
      rewrite Nat.sub_0_r in Hl.
      rewrite (submit_pool _ _ _ _ Hl). by eapply T_accept.
    + injection Hstep as <- <-. by apply T_reject.
  - destruct (requestsPool s !! request) as [sl|] eqn:Hl; [|done].
    destruct (running (slot_request sl)) eqn:Hrun; [|done].
    destruct (completionCallback (slot_request sl)) as [cb|] eqn:Hcb; [|done].
    injection Hstep as <- <-.
    rewrite completionCallback_eq. unfold callbackSucceeds.
    destruct (wf_slot_at _ _ _ Hwf Hl) as [Hslot _]. rewrite Hcb in Hslot.
    destruct Hslot as [Hreq _].
    destruct (complete_pool _ _ _ _ Hl Hcb) as [Hok Hfail].
    destruct (copyOutputs GetBlob getOutputsNames ∅) as [e|outs] eqn:Hcopy; cbn.
    + replace (match callbackException s with
               | Some _ => _ | None => _ end)
        with {| inputFrameId := inputFrameId s;
                outputFrameId := outputFrameId s;
                completedInferenceResults := completedInferenceResults s;
                callbackException :=
                  match callbackException s with
                  | None => Some e
                  | Some e0 => Some e0
                  end;
                requestsPool :=
                  <[request := finished cb (slot_state sl)]> (requestsPool s) |}.
      * by eapply T_complete_fail.
      * rewrite <- Hfail. destruct s as [a b c [e0|] d]; reflexivity.
    + rewrite Hreq, Hok. by eapply T_complete_ok.
  - destruct (defined getResult s); [|done].
    rewrite getResult_eq, getInferenceResult_eq in Hstep.
    destruct (completedInferenceResults s !! outputFrameId s) as [r|] eqn:Hl.
    + rewrite (IsEmpty_entry _ _ _ Hwf Hl) in Hstep. injection Hstep as <- <-.
      destruct (wf_entry_at _ _ _ Hwf Hl) as [Hf _]. rewrite Hf.
      by apply T_get_some.
    + cbn in Hstep. injection Hstep as <- <-. by apply T_get_none.
  - rewrite waitForData_eq in Hstep. cbn in Hstep.
    destruct (wakeCondition s) eqn:Hw; [|done].
    destruct (callbackException s) as [e|] eqn:He; injection Hstep as <- <-.
    + pose proof (T_wait s Hw) as HT. by rewrite He in HT.
    + pose proof (T_wait s Hw) as HT. by rewrite He in HT.
Qed.

End Steps.

(** ** Well-formedness is invariant *)

Section Invariant.

Context {model : ModelBase}.

Lemma wf_pool_insert (p : RequestsPool) r sl :
  wf_pool_from 0 p → wf_slot r sl → wf_pool_from 0 (<[r := sl]> p).
Proof.
  rewrite !wf_pool_lookup. intros Hp Hsl j sl' Hl.
  apply list_lookup_insert_Some in Hl as [(<- & <- & _)|[_ Hl]]; [done|].
  by apply Hp.
Qed.

Lemma wf_new maxAsyncRequests : wf (AsyncPipeline_new maxAsyncRequests).
Proof.
  unfold wf, AsyncPipeline_new, INT64_MAX. cbn.
  split; [lia|]. split; [lia|]. split; [apply map_Forall_empty|apply wf_pool_new].
Qed.

Lemma transition_wf s ev o s' : wf s → transition s ev o s' → wf s'.
Proof.
  intros Hwf HT. pose proof Hwf as (Hin & Hout & Hmap & Hpool).
  destruct HT as [? ?|inputData metaData request sl Hfind Hl Hidle
                 |request GetBlob sl cb outs Hl Hrun Hcb Hcopy
                 |request GetBlob sl cb e Hl Hrun Hcb Hcopy
                 |Hnone|r Hsome Hfid|Hwake]; try done.
  - split; [by apply next_frameId_range|]. split; [done|]. split; [done|]. cbn.
    apply wf_pool_insert; [done|]. by split.
  - destruct (wf_slot_at _ _ _ Hwf Hl) as [Hslot _]. rewrite Hcb in Hslot.
    split; [done|]. split; [done|]. split; cbn.
    + unfold emplace.
      destruct (completedInferenceResults s !! cb_frameID cb); [done|].
      apply map_Forall_insert_2; [|done]. split; [reflexivity|apply Hslot].
    + apply wf_pool_insert; [done|]. split; [by cbn|done].
  - destruct (wf_slot_at _ _ _ Hwf Hl) as [Hslot _]. rewrite Hcb in Hslot.
    split; [done|]. split; [done|]. split; [done|]. cbn.
    apply wf_pool_insert; [done|]. split; [by cbn|done].
  - split; [done|]. split; [by apply next_frameId_range|].
    split; [|done]. cbn. by apply map_Forall_delete.
Qed.

Lemma step_wf s ev o s' : wf s → step s ev = Some (o, s') → wf s'.
Proof. intros Hwf Hstep. eapply transition_wf; [done|]. by apply step_transition. Qed.

Lemma run_cons_inv s ev evs os s' :
  run s (ev :: evs) = Some (os, s') →
  ∃ o s1 os1, step s ev = Some (o, s1) ∧ run s1 evs = Some (os1, s') ∧ os = o :: os1.
Proof.
  cbn. destruct (step s ev) as [[o s1]|]; [|done].
  destruct (run s1 evs) as [[os1 s2]|] eqn:Hrun; [|done].
  intros [= <- <-]. by exists o, s1, os1.
Qed.

Lemma run_wf evs : ∀ s os s', wf s → run s evs = Some (os, s') → wf s'.
Proof.
  induction evs as [|ev evs IH]; intros s os s' Hwf Hrun.
  - by injection Hrun as <- <-.
  - apply run_cons_inv in Hrun as (o & s1 & os1 & Hstep & Hrun & ->).
    eapply IH; [|done]. by eapply step_wf.
Qed.

End Invariant.

(** ** Single steps, as equations *)

Section StepEquations.

Context {model : ModelBase}.

Lemma submitData_rejected inputData metaData s :
  isIdleRequestAvailable (requestsPool s) = false →
  exec (submitData inputData metaData) s = ((-1)%Z, s).
Proof.
  intros Hno. rewrite submitData_eq.
  by rewrite (proj1 (isIdleRequestAvailable_find _) Hno).
Qed.

Lemma submitData_accepted inputData metaData s :
  isIdleRequestAvailable (requestsPool s) = true →
  ∃ request sl,
    find_idle (requestsPool s) 0 = Some request
    ∧ requestsPool s !! request = Some sl ∧ slot_state sl = Idle
    ∧ exec (submitData inputData metaData) s =
        (inputFrameId s,
         {| inputFrameId := next_frameId (inputFrameId s);
            outputFrameId := outputFrameId s;
            completedInferenceResults := completedInferenceResults s;
            callbackException := callbackException s;
            requestsPool :=
              <[request :=
                  acquired {| cb_frameID := inputFrameId s;
                              cb_request := request;
                              cb_internalModelData := preprocess inputData request;
                              cb_metaData := metaData |}]> (requestsPool s) |}).
Proof.
  intros Hyes. rewrite submitData_eq.
  destruct (find_idle (requestsPool s) 0) as [request|] eqn:Hfind.
  - destruct (find_idle_Some _ _ _ Hfind) as (_ & sl & Hl & Hidle).
    rewrite Nat.sub_0_r in Hl. exists request, sl.
    by rewrite (submit_pool _ _ _ _ Hl).
  - apply isIdleRequestAvailable_find in Hfind. congruence.
Qed.

Lemma getResult_none s :
  completedInferenceResults s !! outputFrameId s = None →
  exec getResult s = (None, s).
Proof.
  intros Hnone. by rewrite getResult_eq, getInferenceResult_eq, Hnone.
Qed.

Lemma getResult_some s r :
  wf s →
  completedInferenceResults s !! outputFrameId s = Some r →
  exec getResult s =
    (Some (assign_ResultBase (postprocess r) r),
     {| inputFrameId := inputFrameId s;
        outputFrameId := next_frameId (outputFrameId s);
        completedInferenceResults :=
          delete (outputFrameId s) (completedInferenceResults s);
        callbackException := callbackException s;
        requestsPool := requestsPool s |}).
Proof.
  intros Hwf Hsome.
  rewrite getResult_eq, getInferenceResult_eq, Hsome.
  rewrite (IsEmpty_entry _ _ _ Hwf Hsome).
  by destruct (wf_entry_at _ _ _ Hwf Hsome) as [-> _].
Qed.

(** Where the input cursor goes in one step. *)
Lemma transition_inputFrameId s ev o s' :
  wf s → transition s ev o s' →
  inputFrameId s' =
    if is_accepted o then next_frameId (inputFrameId s) else inputFrameId s.
Proof.
  intros (Hin & _) HT. destruct HT; try done. cbn.
  destruct (Z.eqb_spec (inputFrameId s) (-1)); [lia|done].
Qed.

Lemma run_not_accepted_inputFrameId evs : ∀ s os s',
  wf s → run s evs = Some (os, s') → accepted os = 0 →
  inputFrameId s' = inputFrameId s.
Proof.
  induction evs as [|ev evs IH]; intros s os s' Hwf Hrun Hacc.
  - by injection Hrun as <- <-.
  - apply run_cons_inv in Hrun as (o & s1 & os1 & Hstep & Hrun & ->).
    pose proof (step_transition _ _ _ _ Hwf Hstep) as HT.
    pose proof (transition_inputFrameId _ _ _ _ Hwf HT) as Hin.
    unfold accepted in Hacc. cbn in Hacc.
    destruct (is_accepted o) eqn:Ho; [done|].
    rewrite (IH _ _ _ (transition_wf _ _ _ _ Hwf HT) Hrun Hacc). done.
Qed.

End StepEquations.

(** ** Claims about single calls *)

Section Calls.

Context {model : ModelBase}.


(** C10: a rejected submission leaves the whole state as it was (cursor,
    map, exception slot, slot flags, registered callbacks, running
    requests), and the next accepted submission, whatever else happens in
    between short of another accepted submission, is given the number the
    rejected one would have had. *)
Theorem C10_rejection_changes_nothing s inputData metaData :
  wf s →
  isIdleRequestAvailable (requestsPool s) = false →
  exec (submitData inputData metaData) s = ((-1)%Z, s)
  ∧ step s (EvSubmit inputData metaData) = Some (OutSubmit (-1), s)
  ∧ ∀ evs os s' inputData' metaData',
      run (exec (submitData inputData metaData) s).2 evs = Some (os, s') →
      accepted os = 0 →
      isIdleRequestAvailable (requestsPool s') = true →
      (exec (submitData inputData' metaData') s').1 = inputFrameId s.
Proof.
  intros Hwf Hno.
  pose proof (submitData_rejected inputData metaData s Hno) as Hrej.
  split; [done|]. split.
  { unfold step.
    by rewrite submitData_defined, (proj1 (isIdleRequestAvailable_find _) Hno),
      Hrej. }
  intros evs os s' inputData' metaData' Hrun Hacc Hyes.
  rewrite Hrej in Hrun. cbn in Hrun.
  destruct (submitData_accepted inputData' metaData' s' Hyes)
    as (request & sl & _ & _ & _ & ->). cbn.
  by eapply run_not_accepted_inputFrameId.
Qed.

(** C6: the code does not keep what the claim says at the top of the
    range.  Below [INT64_MAX] an accepted submission moves the input cursor
    up by one and a retrieval moves the output cursor up by one, and both
    stay within 0 .. INT64_MAX.  At [INT64_MAX] the increment (lines 126 and
    161) overflows a signed integer: the call has no defined outcome, and
    the test [x < 0] that follows it cannot be relied on to bring the cursor
    to 0. *)
Theorem C6_increment_overflows_at_INT64_MAX s :
  wf s →
  (∀ inputData metaData,
     isIdleRequestAvailable (requestsPool s) = true →
     ((inputFrameId s < INT64_MAX)%Z →
        defined (submitData inputData metaData) s = true
        ∧ inputFrameId (exec (submitData inputData metaData) s).2
            = (inputFrameId s + 1)%Z
        ∧ outputFrameId (exec (submitData inputData metaData) s).2
            = outputFrameId s)
     ∧ (inputFrameId s = INT64_MAX →
        defined (submitData inputData metaData) s = false
        ∧ step s (EvSubmit inputData metaData) = None))
  ∧ (∀ r,
     completedInferenceResults s !! outputFrameId s = Some r →
     ((outputFrameId s < INT64_MAX)%Z →
        defined getResult s = true
        ∧ outputFrameId (exec getResult s).2 = (outputFrameId s + 1)%Z
        ∧ inputFrameId (exec getResult s).2 = inputFrameId s)
     ∧ (outputFrameId s = INT64_MAX →
        defined getResult s = false
        ∧ step s EvGetResult = None)).
Proof.
  intros Hwf. pose proof Hwf as (Hin & Hout & _). split.
  - intros inputData metaData Hyes.
    destruct (submitData_accepted inputData metaData s Hyes)
      as (request & sl & Hfind & _ & _ & Heq).
    pose proof (submitData_defined inputData metaData s) as Hdef.
    rewrite Hfind in Hdef. split.
    + intros Hlt. rewrite Hdef, Heq. cbn [snd inputFrameId outputFrameId].
      split; [by apply Z.ltb_lt|]. split; [|done].
      apply next_frameId_small. lia.
    + intros Hmax.
      assert (defined (submitData inputData metaData) s = false) as Hundef.
      { rewrite Hdef. apply Z.ltb_ge. lia. }
      split; [done|]. unfold step. by rewrite Hundef.
  - intros r Hl.
    destruct (wf_entry_at _ _ _ Hwf Hl) as [Hf _].
    pose proof (getResult_defined s) as Hdef.
    rewrite getInferenceResult_defined, Hl, (IsEmpty_entry _ _ _ Hwf Hl), Hf in Hdef.
    cbn [orb] in Hdef. split.
    + intros Hlt. rewrite Hdef, (getResult_some _ _ Hwf Hl).
      cbn [snd inputFrameId outputFrameId].
      split; [by apply Z.ltb_lt|]. split; [|done].
      apply next_frameId_small. lia.
    + intros Hmax.
      assert (defined getResult s = false) as Hundef.
      { rewrite Hdef. apply Z.ltb_ge. lia. }
      split; [done|]. unfold step. by rewrite Hundef.
Qed.

(** C5: with no entry under the output cursor [getResult] returns the null
    result and changes nothing; with an entry there it returns that entry
    postprocessed, removes that entry and no other, and, the cursor being
    below [INT64_MAX], moves the output cursor up by one.  [getResult] is a
    total function: it never waits. *)
Theorem C5_getResult_takes_the_cursor_entry s :
  wf s →
  (completedInferenceResults s !! outputFrameId s = None →
     exec getResult s = (None, s))
  ∧ (∀ r, completedInferenceResults s !! outputFrameId s = Some r →
     ∃ s',
       exec getResult s = (Some (assign_ResultBase (postprocess r) r), s')
       ∧ res_frameId (assign_ResultBase (postprocess r) r) = outputFrameId s
       ∧ res_metaData (assign_ResultBase (postprocess r) r) = metaData r
       ∧ completedInferenceResults s' !! outputFrameId s = None
       ∧ (∀ k, k ≠ outputFrameId s →
            completedInferenceResults s' !! k = completedInferenceResults s !! k)
       ∧ ((outputFrameId s < INT64_MAX)%Z →
            outputFrameId s' = (outputFrameId s + 1)%Z
            ∧ defined getResult s = true)
       ∧ inputFrameId s' = inputFrameId s
       ∧ callbackException s' = callbackException s
       ∧ requestsPool s' = requestsPool s).
Proof.
  intros Hwf. pose proof Hwf as (_ & Hout & _). split; [apply getResult_none|].
  intros r Hl. eexists. split; [by apply getResult_some|]. cbn.
  destruct (wf_entry_at _ _ _ Hwf Hl) as [Hf _].
  split; [done|]. split; [done|]. split; [apply lookup_delete_eq|].
  split; [intros k Hk; by apply lookup_delete_ne|].
  split; [|done]. intros Hlt. split; [apply next_frameId_small; lia|].
  rewrite getResult_defined, getInferenceResult_defined, Hl,
    (IsEmpty_entry _ _ _ Hwf Hl), Hf.
  by apply Z.ltb_lt.
Qed.

End Calls.

(** ** Waiting *)

Section Waiting.

Context {model : ModelBase}.

Lemma isIdleRequestAvailable_spec s :
  isIdleRequestAvailable (requestsPool s) = true ↔ idleSlotExists s.
Proof.
  unfold isIdleRequestAvailable, idleSlotExists.
  rewrite existsb_exists. split.
  - intros (sl & Hin & Hidle). apply list_elem_of_In in Hin.
    apply list_elem_of_lookup in Hin as [i Hi]. exists i, sl. split; [done|].
    unfold is_idle in Hidle. by apply bool_decide_eq_true in Hidle.
  - intros (i & sl & Hl & Hidle). exists sl. split.
    + apply list_elem_of_In, list_elem_of_lookup. by exists i.
    + unfold is_idle. by apply bool_decide_eq_true.
Qed.

Lemma wakeCondition_spec s :
  wakeCondition s = true ↔
  exceptionStored s ∨ idleSlotExists s ∨ cursorEntryPresent s.
Proof.
  unfold wakeCondition, exceptionStored, cursorEntryPresent.
  rewrite !orb_true_iff, !bool_decide_eq_true, isIdleRequestAvailable_spec.
  rewrite <- not_eq_None_Some. tauto.
Qed.

Lemma wakeCondition_false s :
  wakeCondition s = false ↔
  ¬ exceptionStored s ∧ ¬ idleSlotExists s ∧ ¬ cursorEntryPresent s.
Proof.
  rewrite <- not_true_iff_false, wakeCondition_spec. tauto.
Qed.

Lemma first_ready_None wakes : ∀ s,
  first_ready s wakes = None ↔ Forall (λ st, wakeCondition st = false) (s :: wakes).
Proof.
  induction wakes as [|s' rest IH]; intros s; cbn.
  - destruct (wakeCondition s) eqn:Hw.
    + split; [done|]. intros H. apply Forall_cons in H as [H _]. congruence.
    + split; [|done]. intros _. by repeat constructor.
  - destruct (wakeCondition s) eqn:Hw.
    + split; [done|]. intros H. apply Forall_cons in H as [H _]. congruence.
    + rewrite IH. split; [by constructor|]. intros H.
      by apply Forall_cons in H as [_ H].
Qed.

(** The state in which the wait ended is the first one that satisfied the
    condition; every state seen before it did not. *)
Lemma first_ready_Some wakes : ∀ s s',
  first_ready s wakes = Some s' →
  ∃ before after,
    s :: wakes = before ++ s' :: after
    ∧ wakeCondition s' = true
    ∧ Forall (λ st, wakeCondition st = false) before.
Proof.
  induction wakes as [|s1 rest IH]; intros s s' Hf; cbn in Hf.
  - destruct (wakeCondition s) eqn:Hw; [|done]. injection Hf as <-.
    by exists [], [].
  - destruct (wakeCondition s) eqn:Hw.
    + injection Hf as <-. by exists [], (s1 :: rest).
    + destruct (IH _ _ Hf) as (before & after & Heq & Hs' & Hbefore).
      exists (s :: before), after. rewrite Heq. by repeat constructor.
Qed.

(** C4: [waitForData] stays blocked exactly as long as, in the state at the
    call and in the state at every wake-up, the exception slot is empty, no
    slot is idle and the map has no entry under the output cursor.  When
    it returns, it does so in the first state where one of the three holds:
    it rethrows the stored exception if there is one, and returns normally
    otherwise. *)
Theorem C4_waitForData_three_conditions s wakes :
  ((exec (waitForData wakes) s).1 = WaitBlocked ↔
     ∀ st, st ∈ s :: wakes →
       ¬ exceptionStored st ∧ ¬ idleSlotExists st ∧ ¬ cursorEntryPresent st)
  ∧ ((exec (waitForData wakes) s).1 ≠ WaitBlocked →
     ∃ before st after,
       s :: wakes = before ++ st :: after
       ∧ (∀ st', st' ∈ before →
            ¬ exceptionStored st' ∧ ¬ idleSlotExists st' ∧ ¬ cursorEntryPresent st')
       ∧ (exceptionStored st ∨ idleSlotExists st ∨ cursorEntryPresent st)
       ∧ match callbackException st with
         | Some e => (exec (waitForData wakes) s).1 = WaitRethrown e
         | None => (exec (waitForData wakes) s).1 = WaitReturned
         end).
Proof.
  rewrite waitForData_eq. split.
  - destruct (first_ready s wakes) as [s'|] eqn:Hf.
    + split; [by destruct (callbackException s')|].
      intros Hall. exfalso.
      destruct (first_ready_Some _ _ _ Hf) as (before & after & Heq & Hs' & _).
      apply wakeCondition_spec in Hs'.
      destruct (Hall s') as (Ha & Hb & Hc); [|tauto].
      rewrite Heq. apply elem_of_app. right. apply list_elem_of_here.
    + split; [|done]. intros _ st Hst.
      apply first_ready_None in Hf. rewrite Forall_forall in Hf.
      by apply wakeCondition_false, Hf.
  - destruct (first_ready s wakes) as [s'|] eqn:Hf; [|done]. intros _.
    destruct (first_ready_Some _ _ _ Hf) as (before & after & Heq & Hs' & Hbefore).
    exists before, s', after. split; [done|]. split.
    + intros st' Hst'. rewrite Forall_forall in Hbefore.
      by apply wakeCondition_false, Hbefore.
    + split; [by apply wakeCondition_spec|].
      by destruct (callbackException s').
Qed.

End Waiting.

(** ** The exception slot *)

Section ExceptionSlot.

Context {model : ModelBase}.

Lemma transition_exception_kept s ev o s' e :
  transition s ev o s' →
  callbackException s = Some e → callbackException s' = Some e.
Proof. intros HT He. destruct HT; try done. cbn. by rewrite He. Qed.

Lemma run_exception_kept evs : ∀ s os s' e,
  wf s → run s evs = Some (os, s') →
  callbackException s = Some e → callbackException s' = Some e.
Proof.
  induction evs as [|ev evs IH]; intros s os s' e Hwf Hrun He.
  - by injection Hrun as <- <-.
  - apply run_cons_inv in Hrun as (o & s1 & os1 & Hstep & Hrun & ->).
    pose proof (step_transition _ _ _ _ Hwf Hstep) as HT.
    eapply IH; [by eapply transition_wf|done|].
    by eapply transition_exception_kept.
Qed.

Lemma waitForData_rethrows s e wakes :
  callbackException s = Some e →
  (exec (waitForData wakes) s).1 = WaitRethrown e.
Proof.
  intros He. rewrite waitForData_eq.
  assert (wakeCondition s = true) as Hw.
  { unfold wakeCondition. rewrite He. done. }
  destruct wakes; cbn; by rewrite Hw, He.
Qed.

(** C3: when a completion continuation fails while the exception slot is
    empty, its error is stored; whatever happens afterwards, including
    further failing continuations, the slot keeps that first error, and
    any later call of [waitForData] rethrows it at once. *)
Theorem C3_first_error_wins s request GetBlob s1 evs os s2 wakes :
  wf s →
  callbackException s = None →
  step s (EvComplete request GetBlob) = Some (OutComplete false, s1) →
  run s1 evs = Some (os, s2) →
  ∃ e,
    copyOutputs GetBlob getOutputsNames ∅ = inl e
    ∧ callbackException s1 = Some e
    ∧ callbackException s2 = Some e
    ∧ (exec (waitForData wakes) s2).1 = WaitRethrown e.
Proof.
  intros Hwf Hnone Hstep Hrun.
  pose proof (step_transition _ _ _ _ Hwf Hstep) as HT.
  pose proof (transition_wf _ _ _ _ Hwf HT) as Hwf1.
  inversion HT as [| | |request' GetBlob' sl cb e Hl Hrunning Hcb Hcopy| | |];
    subst.
  exists e.
  match type of Hrun with run ?st _ = _ =>
    assert (callbackException st = Some e) as He1 by (cbn; by rewrite Hnone)
  end.
  pose proof (run_exception_kept _ _ _ _ _ Hwf1 Hrun He1) as He2.
  split; [exact Hcopy|]. split; [exact He1|]. split; [exact He2|].
  by apply waitForData_rethrows.
Qed.

End ExceptionSlot.

(** ** Lock discipline *)

Section LockDiscipline.

Context {model : ModelBase}.

Lemma Forall_locked_all_under_mtx acc :
  Forall (λ a, acc_locked a = true) acc → all_under_mtx acc = true.
Proof.
  intros H. unfold all_under_mtx. apply forallb_forall.
  intros a Ha. apply list_elem_of_In in Ha.
  rewrite Forall_forall in H. rewrite (H a Ha). by destruct (is_shared_member _).
Qed.

Lemma footprint_waitForData s wakes :
  all_under_mtx (footprint (waitForData wakes) s) = true.
Proof.
  unfold footprint. destruct (waitForData_run wakes s) as (acc & sh & -> & Hacc & _).
  by apply Forall_locked_all_under_mtx.
Qed.

Lemma footprint_completionCallback s cb GetBlob :
  all_under_mtx (footprint (completionCallback_body cb GetBlob) s) = true.
Proof.
  unfold completionCallback_body. run_op.
  destruct (copyOutputs GetBlob getOutputsNames ∅) as [e|outs]; cbn; [|done].
  by destruct (callbackException s).
Qed.

Lemma footprint_submitData s inputData metaData :
  footprint (submitData inputData metaData) s !! 0
    = Some (mkAccess FInputFrameId Load false)
  ∧ under_mtx_on [FCompletedInferenceResults; FCallbackException]
      (footprint (submitData inputData metaData) s) = true.
Proof.
  unfold submitData, getIdleRequest. run_op.
  destruct (find_idle (requestsPool s) 0) as [request|]; cbn; [|done].
  destruct (int64_incr (inputFrameId s)) as [v1|]; cbn; [|done].
  by destruct (v1 <? 0)%Z.
Qed.

Lemma footprint_getResult s :
  footprint getResult s = footprint getInferenceResult s.
Proof.
  unfold getResult, footprint, mbind, Op_bind, mret, Op_ret.
  destruct (getInferenceResult (enter s)) as [infResult t].
  by destruct (IsEmpty infResult).
Qed.

Lemma footprint_getInferenceResult s :
  under_mtx_on [FCompletedInferenceResults; FCallbackException; FSlotFlags;
                FInputFrameId] (footprint getInferenceResult s) = true
  ∧ (∀ r, completedInferenceResults s !! outputFrameId s = Some r →
          IsEmpty r = false →
          mkAccess FOutputFrameId Store false ∈ footprint getInferenceResult s).
Proof.
  unfold getInferenceResult. run_op.
  destruct (completedInferenceResults s !! outputFrameId s) as [r|]; cbn; [|done].
  destruct (IsEmpty r) eqn:Hempty; cbn.
  { split; [done|]. intros r0 [= <-] ?. congruence. }
  destruct (int64_incr (frameId r)) as [v1|]; cbn.
  - destruct (v1 <? 0)%Z; cbn; (split; [done|]); intros _ _ _; set_solver.
  - split; [done|]. intros _ _ _. set_solver.
Qed.

(** C8, as amended: every access to the map of completed results and to
    the exception slot is made with the mutex held, and so is every access
    made by the completion continuation and by [waitForData].  The cursors
    are not covered: [submitData] reads the input cursor (and takes its
    slot) without the mutex, and [getResult] writes the output cursor after
    it has released the mutex. *)
Theorem C8_mutex_guards_map_and_exception_slot s :
  (∀ cb GetBlob,
     all_under_mtx (footprint (completionCallback_body cb GetBlob) s) = true)
  ∧ (∀ wakes, all_under_mtx (footprint (waitForData wakes) s) = true)
  ∧ (∀ inputData metaData,
       under_mtx_on [FCompletedInferenceResults; FCallbackException]
         (footprint (submitData inputData metaData) s) = true
       ∧ footprint (submitData inputData metaData) s !! 0
           = Some (mkAccess FInputFrameId Load false))
  ∧ under_mtx_on [FCompletedInferenceResults; FCallbackException; FSlotFlags;
                  FInputFrameId] (footprint getResult s) = true
  ∧ (∀ r, completedInferenceResults s !! outputFrameId s = Some r →
          IsEmpty r = false →
          mkAccess FOutputFrameId Store false ∈ footprint getResult s).
Proof.
  split; [intros; apply footprint_completionCallback|].
  split; [intros; apply footprint_waitForData|].
  split; [intros; split; apply footprint_submitData|].
  rewrite footprint_getResult. apply footprint_getInferenceResult.
Qed.

End LockDiscipline.

(** ** Counting idle slots along a run *)

Lemma emplace_lookup_Some `{Countable K} {V} (k k' : K) (v r : V) (m : gmap K V) :
  emplace k v m !! k' = Some r → m !! k' = Some r ∨ (k' = k ∧ r = v).
Proof.
  unfold emplace. destruct (m !! k) eqn:Hk; [by left|].
  intros Hl. apply lookup_insert_Some in Hl as [[<- <-]|[_ Hl]]; [by right|by left].
Qed.

Lemma emplace_lookup_kept `{Countable K} {V} (k k' : K) (v r : V) (m : gmap K V) :
  m !! k' = Some r → emplace k v m !! k' = Some r.
Proof.
  unfold emplace. intros Hl. destruct (m !! k) eqn:Hk; [done|].
  rewrite lookup_insert_ne; [done|]. intros ->. congruence.
Qed.

Lemma emplace_lookup_key `{Countable K} {V} (k : K) (v : V) (m : gmap K V) :
  is_Some (emplace k v m !! k).
Proof.
  unfold emplace. destruct (m !! k) eqn:Hk; [by rewrite Hk|].
  rewrite lookup_insert_eq. by eexists.
Qed.

Lemma idleCount_insert (p : RequestsPool) i sl sl' :
  p !! i = Some sl →
  idleCount (<[i := sl']> p) + (if is_idle sl then 1 else 0) =
  idleCount p + (if is_idle sl' then 1 else 0).
Proof.
  intros Hl. rewrite list_insert_alter. by apply (idleCount_alter (λ _, sl')).
Qed.

Lemma retrieved_cons o os : retrieved (o :: os) = retrieved [o] ++ retrieved os.
Proof. destruct o as [| |[r|]|]; reflexivity. Qed.

Lemma retrieved_app os1 os2 : retrieved (os1 ++ os2) = retrieved os1 ++ retrieved os2.
Proof.
  induction os1 as [|o os1 IH]; [done|].
  rewrite <- app_comm_cons, retrieved_cons, IH, (retrieved_cons o os1).
  by rewrite app_assoc.
Qed.

Section Capacity.

Context {model : ModelBase}.

Lemma transition_idleCount s ev o s' :
  wf s → transition s ev o s' →
  idleCount (requestsPool s') + (if is_accepted o then 1 else 0) =
    idleCount (requestsPool s) + (if is_released o then 1 else 0)
  ∧ length (requestsPool s') = length (requestsPool s).
Proof.
  intros Hwf HT. pose proof Hwf as (Hin & _).
  destruct HT as [? ?|inputData metaData request sl Hfind Hl Hidle
                 |request GetBlob sl cb outs Hl Hrun Hcb Hcopy
                 |request GetBlob sl cb e Hl Hrun Hcb Hcopy
                 |Hnone|r Hsome Hfid|Hwake]; cbn; try (split; [lia|done]).
  - rewrite length_insert. split; [|done].
    pose proof (idleCount_insert _ _ _
      (acquired {| cb_frameID := inputFrameId s; cb_request := request;
                   cb_internalModelData := preprocess inputData request;
                   cb_metaData := metaData |}) Hl) as Hc.
    unfold is_idle in Hc at 1. rewrite bool_decide_eq_true_2 in Hc by done.
    change (is_idle (acquired _)) with false in Hc. cbv iota in Hc.
    destruct (Z.eqb_spec (inputFrameId s) (-1)); [lia|]. cbn. lia.
  - rewrite length_insert. split; [|done].
    pose proof (idleCount_insert _ _ _ (finished cb Idle) Hl) as Hc.
    destruct (wf_slot_at _ _ _ Hwf Hl) as [_ Hbusy]. specialize (Hbusy Hrun).
    unfold is_idle in Hc at 1. rewrite bool_decide_eq_false_2 in Hc by congruence.
    change (is_idle (finished cb Idle)) with true in Hc. cbv iota in Hc. lia.
  - rewrite length_insert. split; [|done].
    pose proof (idleCount_insert _ _ _ (finished cb (slot_state sl)) Hl) as Hc.
    change (is_idle (finished cb (slot_state sl))) with (is_idle sl) in Hc. lia.
Qed.

Lemma run_idleCount evs : ∀ s os s',
  wf s → run s evs = Some (os, s') →
  idleCount (requestsPool s') + accepted os =
    idleCount (requestsPool s) + released os
  ∧ length (requestsPool s') = length (requestsPool s).
Proof.
  induction evs as [|ev evs IH]; intros s os s' Hwf Hrun.
  - injection Hrun as <- <-. cbn. split; [lia|done].
  - apply run_cons_inv in Hrun as (o & s1 & os1 & Hstep & Hrun & ->).
    pose proof (step_transition _ _ _ _ Hwf Hstep) as HT.
    destruct (transition_idleCount _ _ _ _ Hwf HT) as [Hc1 Hlen1].
    destruct (IH _ _ _ (transition_wf _ _ _ _ Hwf HT) Hrun) as [Hc Hlen].
    unfold accepted, released in *. cbn. split; [lia|congruence].
Qed.

(** C2, as amended: [submitData] answers the rejection value, at once,
    exactly when no slot is idle.  For a pool of capacity C that is the
    case exactly when the accepted submissions outnumber the completion
    continuations that released their slot by C; so after C accepted
    submissions and no such completion the next submission is rejected,
    retrievals or not, and after a rejection a submission is accepted again
    only once a completion continuation has released a slot. *)
Theorem C2_rejected_exactly_when_no_idle_slot
    capacity evs os s inputData metaData :
  run (AsyncPipeline_new capacity) evs = Some (os, s) →
  ((exec (submitData inputData metaData) s).1 = (-1)%Z ↔
     isIdleRequestAvailable (requestsPool s) = false)
  ∧ (isIdleRequestAvailable (requestsPool s) = false ↔
     accepted os = capacity + released os)
  ∧ (accepted os = capacity → released os = 0 →
     exec (submitData inputData metaData) s = ((-1)%Z, s))
  ∧ (∀ evs' os' s' inputData' metaData',
       isIdleRequestAvailable (requestsPool s) = false →
       run s evs' = Some (os', s') →
       (exec (submitData inputData' metaData') s').1 ≠ (-1)%Z →
       0 < released os').
Proof.
  intros Hrun.
  pose proof (run_wf _ _ _ _ (wf_new capacity) Hrun) as Hwf.
  destruct (run_idleCount _ _ _ _ (wf_new capacity) Hrun) as [Hcount _].
  cbn in Hcount. rewrite idleCount_replicate in Hcount.
  assert (isIdleRequestAvailable (requestsPool s) = false ↔
          accepted os = capacity + released os) as Hfull.
  { rewrite isIdleRequestAvailable_count. lia. }
  split.
  { split.
    - intros Hrej.
      destruct (isIdleRequestAvailable (requestsPool s)) eqn:Hidle; [|done].
      destruct (submitData_accepted inputData metaData s Hidle)
        as (request & sl & _ & _ & _ & Heq).
      rewrite Heq in Hrej. cbn in Hrej. destruct Hwf as (Hin & _). lia.
    - intros Hno. by rewrite submitData_rejected. }
  split; [done|]. split.
  { intros Hacc Hrel. apply submitData_rejected, Hfull. lia. }
  intros evs' os' s' inputData' metaData' Hno Hrun' Hacc.
  destruct (run_idleCount _ _ _ _ Hwf Hrun') as [Hcount' _].
  apply isIdleRequestAvailable_count in Hno.
  destruct (isIdleRequestAvailable (requestsPool s')) eqn:Hidle.
  - assert (idleCount (requestsPool s') ≠ 0) as Hpos.
    { intros Hz. apply isIdleRequestAvailable_count in Hz. congruence. }
    lia.
  - by rewrite submitData_rejected in Hacc.
Qed.

End Capacity.

(** ** Results leave in submission order *)

Section Ordering.

Context {model : ModelBase}.

Lemma transition_ordered s ev o s' :
  wf s → ordered s →
  (is_accepted o = true → (inputFrameId s < INT64_MAX)%Z) →
  transition s ev o s' → ordered s'.
Proof.
  intros Hwf (Hle & Hkeys & Hcbs) Hroom HT. pose proof Hwf as (Hin & Hout & _).
  destruct HT as [? ?|inputData metaData request sl Hfind Hl Hidle
                 |request GetBlob sl cb outs Hl Hrun Hcb Hcopy
                 |request GetBlob sl cb e Hl Hrun Hcb Hcopy
                 |Hnone|r Hsome Hfid|Hwake]; try done.
  - assert (inputFrameId s < INT64_MAX)%Z as Hlt.
    { apply Hroom. cbn. destruct (Z.eqb_spec (inputFrameId s) (-1)); [lia|done]. }
    unfold ordered. cbn. rewrite next_frameId_small by lia.
    split; [lia|]. split.
    + intros k r Hk. specialize (Hkeys k r Hk). lia.
    + intros i sl' cb' Hi Hcb'.
      apply list_lookup_insert_Some in Hi as [(<- & <- & _)|[_ Hi]].
      * cbn in Hcb'. injection Hcb' as <-. cbn. lia.
      * specialize (Hcbs i sl' cb' Hi Hcb'). lia.
  - unfold ordered. cbn. split; [done|]. split.
    + intros k r Hk. apply emplace_lookup_Some in Hk as [Hk|[-> _]].
      * by eapply Hkeys.
      * by eapply Hcbs.
    + intros i sl' cb' Hi Hcb'.
      apply list_lookup_insert_Some in Hi as [(<- & <- & _)|[_ Hi]].
      * cbn in Hcb'. injection Hcb' as <-. by eapply Hcbs.
      * by eapply Hcbs.
  - unfold ordered. cbn. split; [done|]. split; [done|].
    intros i sl' cb' Hi Hcb'.
    apply list_lookup_insert_Some in Hi as [(<- & <- & _)|[_ Hi]].
    + cbn in Hcb'. injection Hcb' as <-. by eapply Hcbs.
    + by eapply Hcbs.
  - pose proof (Hkeys _ _ Hsome) as Hlt.
    unfold ordered. cbn. rewrite next_frameId_small by lia.
    split; [lia|]. split; [|done].
    intros k r' Hk. apply lookup_delete_Some in Hk as [_ Hk]. by eapply Hkeys.
Qed.

(** What one step hands to the caller, and where it leaves the output
    cursor. *)
Lemma transition_retrieved s ev o s' :
  wf s → ordered s → transition s ev o s' →
  retrieved [o] = seqZ (outputFrameId s) (outputFrameId s' - outputFrameId s)
  ∧ (outputFrameId s ≤ outputFrameId s')%Z.
Proof.
  intros Hwf (Hle & Hkeys & Hcbs) HT. pose proof Hwf as (Hin & Hout & _).
  destruct HT as [? ?|inputData metaData request sl Hfind Hl Hidle
                 |request GetBlob sl cb outs Hl Hrun Hcb Hcopy
                 |request GetBlob sl cb e Hl Hrun Hcb Hcopy
                 |Hnone|r Hsome Hfid|Hwake]; cbn [outputFrameId];
    try (rewrite Z.sub_diag; split; [reflexivity|lia]).
  pose proof (Hkeys _ _ Hsome) as Hlt.
  rewrite next_frameId_small by lia.
  replace (outputFrameId s + 1 - outputFrameId s)%Z with 1%Z by lia.
  cbn. rewrite Hfid. split; [reflexivity|lia].
Qed.

Lemma transition_covered s ev o s' :
  wf s → ordered s → covered s →
  (is_accepted o = true → (inputFrameId s < INT64_MAX)%Z) →
  transition s ev o s' → covered s'.
Proof.
  intros Hwf (Hle & Hkeys & Hcbs) Hcov Hroom HT.
  pose proof Hwf as (Hin & Hout & _).
  destruct HT as [? ?|inputData metaData request sl Hfind Hl Hidle
                 |request GetBlob sl cb outs Hl Hrun Hcb Hcopy
                 |request GetBlob sl cb e Hl Hrun Hcb Hcopy
                 |Hnone|r Hsome Hfid|Hwake]; try done.
  - assert (inputFrameId s < INT64_MAX)%Z as Hlt.
    { apply Hroom. cbn. destruct (Z.eqb_spec (inputFrameId s) (-1)); [lia|done]. }
    intros k. cbn. rewrite next_frameId_small by lia. intros Hk.
    destruct (decide (k = inputFrameId s)) as [->|Hne].
    + right. eexists request, _, _. split.
      * apply list_lookup_insert_eq. by eapply lookup_lt_Some.
      * by cbn.
    + destruct (Hcov k) as [Hmap|(i & sl' & cb' & Hi & Hbusy & Hcb' & Hf)];
        [lia|by left|].
      right. exists i, sl', cb'. split; [|done].
      rewrite list_lookup_insert_ne; [done|]. intros <-. congruence.
  - intros k. cbn. intros Hk.
    destruct (Hcov k Hk) as [[r Hmap]|(i & sl' & cb' & Hi & Hbusy & Hcb' & Hf)].
    + left. exists r. by apply emplace_lookup_kept.
    + destruct (decide (i = request)) as [->|Hne].
      * left. assert (cb' = cb) as -> by congruence. rewrite <- Hf.
        apply emplace_lookup_key.
      * right. exists i, sl', cb'. split; [|done].
        by rewrite list_lookup_insert_ne.
  - intros k. cbn. intros Hk.
    destruct (Hcov k Hk) as [Hmap|(i & sl' & cb' & Hi & Hbusy & Hcb' & Hf)];
      [by left|].
    right. destruct (decide (i = request)) as [->|Hne].
    + assert (sl' = sl) as -> by congruence.
      assert (cb' = cb) as -> by congruence.
      eexists request, _, cb. split.
      * apply list_lookup_insert_eq. by eapply lookup_lt_Some.
      * by cbn.
    + exists i, sl', cb'. split; [|done]. by rewrite list_lookup_insert_ne.
  - pose proof (Hkeys _ _ Hsome) as Hlt.
    intros k. cbn. rewrite next_frameId_small by lia. intros Hk.
    destruct (Hcov k) as [Hmap|Hslot]; [lia| |by right].
    left. rewrite lookup_delete_ne; [done|lia].
Qed.

Lemma run_ordered evs : ∀ s os s',
  wf s → ordered s → covered s →
  (inputFrameId s + Z.of_nat (accepted os) ≤ INT64_MAX)%Z →
  run s evs = Some (os, s') →
  ordered s' ∧ covered s'
  ∧ inputFrameId s' = (inputFrameId s + Z.of_nat (accepted os))%Z
  ∧ retrieved os = seqZ (outputFrameId s) (outputFrameId s' - outputFrameId s)
  ∧ (outputFrameId s ≤ outputFrameId s')%Z.
Proof.
  induction evs as [|ev evs IH]; intros s os s' Hwf Hord Hcov Hroom Hrun.
  - injection Hrun as <- <-. cbn. rewrite Z.sub_diag.
    split; [done|]. split; [done|]. split; [lia|]. split; [done|lia].
  - apply run_cons_inv in Hrun as (o & s1 & os1 & Hstep & Hrun & ->).
    pose proof (step_transition _ _ _ _ Hwf Hstep) as HT.
    pose proof (transition_wf _ _ _ _ Hwf HT) as Hwf1.
    pose proof (transition_inputFrameId _ _ _ _ Hwf HT) as Hin1.
    pose proof Hwf as (Hin & _).
    unfold accepted in Hroom. cbn [tally] in Hroom. fold (accepted os1) in Hroom.
    assert (is_accepted o = true → (inputFrameId s < INT64_MAX)%Z) as Hroom1.
    { intros Ho. rewrite Ho in Hroom. lia. }
    assert (inputFrameId s1 =
            (inputFrameId s + Z.of_nat (if is_accepted o then 1 else 0))%Z) as Hin1'.
    { rewrite Hin1. destruct (is_accepted o); [|lia].
      rewrite next_frameId_small; [lia|]. split; [lia|]. by apply Hroom1. }
    pose proof (transition_ordered _ _ _ _ Hwf Hord Hroom1 HT) as Hord1.
    pose proof (transition_covered _ _ _ _ Hwf Hord Hcov Hroom1 HT) as Hcov1.
    destruct (transition_retrieved _ _ _ _ Hwf Hord HT) as [Hret1 Hout1].
    destruct (IH s1 os1 s' Hwf1 Hord1 Hcov1) as (Hord' & Hcov' & Hin' & Hret & Hout');
      [lia|done|].
    split; [done|]. split; [done|]. split.
    { unfold accepted. cbn [tally]. fold (accepted os1). lia. }
    split; [|lia].
    rewrite retrieved_cons, Hret1, Hret.
    replace (outputFrameId s' - outputFrameId s)%Z
      with ((outputFrameId s1 - outputFrameId s)
            + (outputFrameId s' - outputFrameId s1))%Z by lia.
    rewrite seqZ_app by lia. do 2 f_equal. lia.
Qed.

Lemma ordered_new capacity :
  ordered (AsyncPipeline_new capacity) ∧ covered (AsyncPipeline_new capacity).
Proof.
  split.
  - split; [done|]. split; [done|]. cbn. intros i sl cb Hi Hcb.
    apply lookup_replicate in Hi as [-> _]. done.
  - intros k. cbn. lia.
Qed.

(** Every entry from the output cursor on is in the map: that many calls of
    [getResult] hand them over in order. *)
Lemma drain n : ∀ s,
  wf s →
  (outputFrameId s + Z.of_nat n ≤ INT64_MAX)%Z →
  (∀ k, (outputFrameId s ≤ k < outputFrameId s + Z.of_nat n)%Z →
        is_Some (completedInferenceResults s !! k)) →
  ∃ os s',
    run s (replicate n EvGetResult) = Some (os, s')
    ∧ retrieved os = seqZ (outputFrameId s) (Z.of_nat n)
    ∧ length os = n
    ∧ Forall (λ o, ∃ r, o = OutResult (Some r)) os.
Proof.
  induction n as [|n IH]; intros s Hwf Hroom Hall.
  - exists [], s. by repeat split.
  - destruct (Hall (outputFrameId s)) as [r Hr]; [lia|].
    pose proof (getResult_some _ _ Hwf Hr) as Hget.
    set (s1 := {| inputFrameId := inputFrameId s;
                  outputFrameId := next_frameId (outputFrameId s);
                  completedInferenceResults :=
                    delete (outputFrameId s) (completedInferenceResults s);
                  callbackException := callbackException s;
                  requestsPool := requestsPool s |}) in *.
    pose proof Hwf as (_ & Hout & _).
    assert (step s EvGetResult =
            Some (OutResult (Some (assign_ResultBase (postprocess r) r)), s1))
      as Hstep.
    { unfold step.
      rewrite getResult_defined, getInferenceResult_defined, Hr,
        (IsEmpty_entry _ _ _ Hwf Hr), Hget.
      destruct (wf_entry_at _ _ _ Hwf Hr) as [-> _].
      destruct (Z.ltb_spec (outputFrameId s) INT64_MAX); [done|lia]. }
    pose proof (step_wf _ _ _ _ Hwf Hstep) as Hwf1.
    assert (outputFrameId s1 = (outputFrameId s + 1)%Z) as Hout1.
    { cbn. apply next_frameId_small. lia. }
    destruct (IH s1 Hwf1) as (os & s' & Hrun & Hret & Hlen & Hsome).
    { lia. }
    { intros k Hk. cbn. rewrite lookup_delete_ne by lia. apply Hall. lia. }
    exists (OutResult (Some (assign_ResultBase (postprocess r) r)) :: os), s'.
    split.
    { change (replicate (S n) EvGetResult)
        with (EvGetResult :: replicate n EvGetResult).
      cbn [run]. by rewrite Hstep, Hrun. }
    split.
    { rewrite retrieved_cons, Hret, Hout1. cbn [retrieved assign_ResultBase res_frameId app].
      destruct (wf_entry_at _ _ _ Hwf Hr) as [-> _].
      rewrite (seqZ_cons (outputFrameId s)) by lia.
      do 2 f_equal; lia. }
    split; [cbn; by rewrite Hlen|].
    constructor; [by eexists|done].
Qed.

End Ordering.

Section OrderingClaim.

Context {model : ModelBase}.

(** C1: from a fresh pipeline, however submissions, completions and
    retrievals interleave, the results handed to the caller carry the
    sequence numbers 0, 1, 2, ... in that order, up to the output cursor;
    [getResult] never touches an entry that is not under the output
    cursor, and hands nothing over while the entry under the cursor is
    missing; and once every accepted submission has completed, the
    remaining calls of [getResult] bring the sequence to 0 .. N-1. *)
Theorem C1_results_in_submission_order capacity evs os s :
  run (AsyncPipeline_new capacity) evs = Some (os, s) →
  (Z.of_nat (accepted os) ≤ INT64_MAX)%Z →
  retrieved os = seqZ 0 (outputFrameId s)
  ∧ (0 ≤ outputFrameId s ≤ Z.of_nat (accepted os))%Z
  ∧ (∀ k, k ≠ outputFrameId s →
       completedInferenceResults (exec getResult s).2 !! k
       = completedInferenceResults s !! k)
  ∧ (completedInferenceResults s !! outputFrameId s = None →
       exec getResult s = (None, s))
  ∧ (released os = accepted os →
     ∃ os' s',
       run s (replicate (accepted os - Z.to_nat (outputFrameId s)) EvGetResult)
         = Some (os', s')
       ∧ retrieved (os ++ os') = seqZ 0 (Z.of_nat (accepted os))).
Proof.
  intros Hrun Hroom.
  pose proof (wf_new capacity) as Hwf0.
  destruct (ordered_new capacity) as [Hord0 Hcov0].
  pose proof (run_wf _ _ _ _ Hwf0 Hrun) as Hwf.
  destruct (run_ordered _ _ _ _ Hwf0 Hord0 Hcov0 Hroom Hrun)
    as (Hord & Hcov & Hin & Hret & Hout).
  cbn in Hin, Hret, Hout. rewrite Z.sub_0_r in Hret.
  destruct Hord as (Hle & Hkeys & Hcbs).
  split; [done|]. split; [lia|]. split.
  { intros k Hk.
    destruct (completedInferenceResults s !! outputFrameId s) as [r|] eqn:Hl.
    - rewrite (getResult_some _ _ Hwf Hl). cbn. by rewrite lookup_delete_ne.
    - by rewrite (getResult_none _ Hl). }
  split; [apply getResult_none|].
  intros Hall.
  destruct (run_idleCount _ _ _ _ Hwf0 Hrun) as [Hcount Hlen].
  cbn [requestsPool AsyncPipeline_new] in Hcount, Hlen.
  rewrite idleCount_replicate in Hcount.
  unfold RequestsPool_new in Hlen. rewrite length_replicate in Hlen.
  assert (idleCount (requestsPool s) = length (requestsPool s)) as Hfull by lia.
  destruct (drain (accepted os - Z.to_nat (outputFrameId s)) s Hwf)
    as (os' & s' & Hrun' & Hret' & _).
  { lia. }
  { intros k Hk.
    destruct (Hcov k) as [Hmap|(i & sl & cb & Hi & Hbusy & _)]; [lia|done|].
    rewrite (idleCount_full _ _ _ Hfull Hi) in Hbusy. done. }
  exists os', s'. split; [done|].
  rewrite retrieved_app, Hret, Hret'.
  set (n := accepted os - Z.to_nat (outputFrameId s)) in *.
  replace (Z.of_nat (accepted os))
    with (outputFrameId s + Z.of_nat n)%Z by (unfold n; lia).
  rewrite seqZ_app by lia. do 2 f_equal.
Qed.

End OrderingClaim.

(** ** Metadata comes back with its result *)

Lemma NoDup_fst_functional {A B} (l : list (A * B)) :
  NoDup (l.*1) → ∀ k a b, (k, a) ∈ l → (k, b) ∈ l → a = b.
Proof.
  induction l as [|[k0 a0] l IH]; intros Hnd k a b Ha Hb.
  - by apply elem_of_nil in Ha.
  - cbn in Hnd. apply NoDup_cons in Hnd as [Hnotin Hnd].
    apply elem_of_cons in Ha as [Ha|Ha], Hb as [Hb|Hb].
    + congruence.
    + injection Ha as -> ->. exfalso. apply Hnotin.
      apply list_elem_of_fmap. by exists (k0, b).
    + injection Hb as -> ->. exfalso. apply Hnotin.
      apply list_elem_of_fmap. by exists (k0, a).
    + by eapply IH.
Qed.

Section MetaData.

Context {model : ModelBase}.

Lemma run_meta evs : ∀ s os s' hist,
  wf s → meta_ok hist s → run s evs = Some (os, s') →
  ∀ p, p ∈ retrievedMetaData os → p ∈ hist ++ submissions evs os.
Proof.
  induction evs as [|ev evs IH]; intros s os s' hist Hwf Hmeta Hrun p Hp.
  - injection Hrun as <- <-. by apply elem_of_nil in Hp.
  - apply run_cons_inv in Hrun as (o & s1 & os1 & Hstep & Hrun & ->).
    pose proof (step_transition _ _ _ _ Hwf Hstep) as HT.
    pose proof (transition_wf _ _ _ _ Hwf HT) as Hwf1.
    pose proof Hwf as (Hin & _). destruct Hmeta as [Hm Hc].
    destruct HT as [inputData metaData Hfind
                   |inputData metaData request sl Hfind Hl Hidle
                   |request GetBlob sl cb outs Hl Hrunning Hcb Hcopy
                   |request GetBlob sl cb e Hl Hrunning Hcb Hcopy
                   |Hnone|r Hsome Hfid|Hwake].
    + cbn in Hp |- *. by eapply IH.
    + cbn [retrievedMetaData] in Hp. cbn [submissions].
      assert (is_accepted (OutSubmit (inputFrameId s)) = true) as ->.
      { cbn. destruct (Z.eqb_spec (inputFrameId s) (-1)); [lia|done]. }
      rewrite (app_assoc hist [_] _ : hist ++ _ :: _ = _).
      eapply IH; [exact Hwf1| |exact Hrun|exact Hp].
      split; cbn.
      * intros k r Hk. apply elem_of_app. left. by eapply Hm.
      * intros i sl' cb' Hi Hcb'. apply elem_of_app.
        apply list_lookup_insert_Some in Hi as [(<- & <- & _)|[_ Hi]].
        -- right. cbn in Hcb'. injection Hcb' as <-. cbn. apply list_elem_of_here.
        -- left. by eapply Hc.
    + cbn [retrievedMetaData] in Hp. cbn [submissions].
      eapply IH; [exact Hwf1| |exact Hrun|exact Hp].
      split; cbn.
      * intros k r Hk. apply emplace_lookup_Some in Hk as [Hk|[_ ->]].
        -- by eapply Hm.
        -- cbn. by eapply Hc.
      * intros i sl' cb' Hi Hcb'.
        apply list_lookup_insert_Some in Hi as [(<- & <- & _)|[_ Hi]].
        -- cbn in Hcb'. injection Hcb' as <-. by eapply Hc.
        -- by eapply Hc.
    + cbn [retrievedMetaData] in Hp. cbn [submissions].
      eapply IH; [exact Hwf1| |exact Hrun|exact Hp].
      split; cbn; [done|].
      intros i sl' cb' Hi Hcb'.
      apply list_lookup_insert_Some in Hi as [(<- & <- & _)|[_ Hi]].
      * cbn in Hcb'. injection Hcb' as <-. by eapply Hc.
      * by eapply Hc.
    + cbn in Hp |- *. by eapply IH.
    + cbn [retrievedMetaData assign_ResultBase res_frameId res_metaData] in Hp.
      cbn [submissions].
      apply elem_of_cons in Hp as [->|Hp].
      * apply elem_of_app. left. by eapply Hm.
      * eapply IH; [exact Hwf1| |exact Hrun|exact Hp].
        split; cbn; [|done].
        intros k r' Hk. apply lookup_delete_Some in Hk as [_ Hk]. by eapply Hm.
    + cbn in Hp |- *. by eapply IH.
Qed.

Lemma run_submissions evs : ∀ s os s',
  wf s → (inputFrameId s + Z.of_nat (accepted os) ≤ INT64_MAX)%Z →
  run s evs = Some (os, s') →
  (submissions evs os).*1 = seqZ (inputFrameId s) (Z.of_nat (accepted os)).
Proof.
  induction evs as [|ev evs IH]; intros s os s' Hwf Hroom Hrun.
  - by injection Hrun as <- <-.
  - apply run_cons_inv in Hrun as (o & s1 & os1 & Hstep & Hrun & ->).
    pose proof (step_transition _ _ _ _ Hwf Hstep) as HT.
    pose proof (transition_wf _ _ _ _ Hwf HT) as Hwf1.
    pose proof (transition_inputFrameId _ _ _ _ Hwf HT) as Hin1.
    pose proof Hwf as (Hin & _).
    unfold accepted in Hroom |- *. cbn [tally] in Hroom |- *.
    fold (accepted os1) in Hroom |- *.
    destruct HT as [inputData metaData Hfind
                   |inputData metaData request sl Hfind Hl Hidle
                   |request GetBlob sl cb outs Hl Hrunning Hcb Hcopy
                   |request GetBlob sl cb e Hl Hrunning Hcb Hcopy
                   |Hnone|r Hsome Hfid|Hwake];
      try exact (IH _ _ _ Hwf1 Hroom Hrun).
    assert (is_accepted (OutSubmit (inputFrameId s)) = true) as Hacc.
    { cbn. destruct (Z.eqb_spec (inputFrameId s) (-1)); [lia|done]. }
    rewrite Hacc in Hin1, Hroom |- *. cbn [submissions]. rewrite Hacc.
    rewrite fmap_cons. cbn [fst].
    match type of Hrun with run ?st _ = _ =>
      assert (inputFrameId st + Z.of_nat (accepted os1) ≤ INT64_MAX)%Z
        as Hroom1
        by (cbn [inputFrameId]; rewrite next_frameId_small by lia; lia)
    end.
    pose proof (IH _ _ _ Hwf1 Hroom1 Hrun) as Hsub.
    cbn [inputFrameId] in Hsub. rewrite next_frameId_small in Hsub by lia.
    rewrite Hsub.
    rewrite (seqZ_cons (inputFrameId s)) by lia.
    do 2 f_equal; lia.
Qed.

Lemma submissions_cons ev evs o os :
  submissions (ev :: evs) (o :: os) = submissions [ev] [o] ++ submissions evs os.
Proof.
  destruct ev as [inputData metaData| | |], o as [frameID| | |]; try reflexivity.
  cbn [submissions]. by destruct (is_accepted (OutSubmit frameID)).
Qed.

Lemma transition_meta_ok hist s ev o s' :
  wf s → meta_ok hist s → transition s ev o s' →
  meta_ok (hist ++ submissions [ev] [o]) s'.
Proof.
  intros Hwf Hmeta HT. pose proof Hwf as (Hin & _).
  pose proof Hmeta as [Hm Hc].
  destruct HT as [inputData metaData Hfind
                 |inputData metaData request sl Hfind Hl Hidle
                 |request GetBlob sl cb outs Hl Hrunning Hcb Hcopy
                 |request GetBlob sl cb e Hl Hrunning Hcb Hcopy
                 |Hnone|r Hsome Hfid|Hwake];
    cbn [submissions is_accepted]; rewrite ?app_nil_r; try done.
  - assert (negb (inputFrameId s =? -1)%Z = true) as ->.
    { destruct (Z.eqb_spec (inputFrameId s) (-1)); [lia|done]. }
    split; cbn.
    + intros k r Hk. apply elem_of_app. left. by eapply Hm.
    + intros i sl' cb' Hi Hcb'. apply elem_of_app.
      apply list_lookup_insert_Some in Hi as [(<- & <- & _)|[_ Hi]].
      * right. cbn in Hcb'. injection Hcb' as <-. cbn. apply list_elem_of_here.
      * left. by eapply Hc.
  - split; cbn.
    + intros k r Hk. apply emplace_lookup_Some in Hk as [Hk|[_ ->]].
      * by eapply Hm.
      * cbn. by eapply Hc.
    + intros i sl' cb' Hi Hcb'.
      apply list_lookup_insert_Some in Hi as [(<- & <- & _)|[_ Hi]].
      * cbn in Hcb'. injection Hcb' as <-. by eapply Hc.
      * by eapply Hc.
  - split; cbn; [done|].
    intros i sl' cb' Hi Hcb'.
    apply list_lookup_insert_Some in Hi as [(<- & <- & _)|[_ Hi]].
    + cbn in Hcb'. injection Hcb' as <-. by eapply Hc.
    + by eapply Hc.
  - split; cbn; [|done].
    intros k r' Hk. apply lookup_delete_Some in Hk as [_ Hk]. by eapply Hm.
Qed.

Lemma run_meta_ok evs : ∀ s os s' hist,
  wf s → meta_ok hist s → run s evs = Some (os, s') →
  meta_ok (hist ++ submissions evs os) s'.
Proof.
  induction evs as [|ev evs IH]; intros s os s' hist Hwf Hmeta Hrun.
  - injection Hrun as <- <-. cbn. by rewrite app_nil_r.
  - apply run_cons_inv in Hrun as (o & s1 & os1 & Hstep & Hrun & ->).
    pose proof (step_transition _ _ _ _ Hwf Hstep) as HT.
    rewrite submissions_cons, app_assoc.
    apply (IH s1 os1 s' _ (transition_wf _ _ _ _ Hwf HT)); [|done].
    by apply (transition_meta_ok hist s ev o s1).
Qed.

Lemma retrievedMetaData_fst os : (retrievedMetaData os).*1 = retrieved os.
Proof.
  induction os as [|o os IH]; [done|].
  destruct o as [| |[r|]|]; cbn; by rewrite ?IH.
Qed.

Lemma retrievedMetaData_app os1 os2 :
  retrievedMetaData (os1 ++ os2) = retrievedMetaData os1 ++ retrievedMetaData os2.
Proof.
  induction os1 as [|o os1 IH]; [done|].
  destruct o as [| |[r|]|]; cbn; by rewrite ?IH.
Qed.

Lemma submissions_getResults n : ∀ os,
  submissions (replicate n EvGetResult) os = [].
Proof.
  induction n as [|n IH]; intros os; [by destruct os|].
  destruct os as [|o os]; [done|]. cbn. apply IH.
Qed.

(** Two lists of pairs with the same first components, pairwise distinct,
    are equal as soon as every pair of the first occurs in the second; and
    likewise for prefixes. *)
Lemma pairs_prefix {A B} (l1 : list (A * B)) : ∀ l2,
  NoDup (l2.*1) → (∀ p, p ∈ l1 → p ∈ l2) →
  l1.*1 `prefix_of` l2.*1 → l1 `prefix_of` l2.
Proof.
  induction l1 as [|[k a] t1 IH]; intros l2 Hnd Hsub Hpre; [apply prefix_nil|].
  destruct l2 as [|[k' b] t2]; [by apply prefix_nil_not in Hpre|].
  cbn in Hpre, Hnd.
  pose proof (prefix_cons_inv_1 _ _ _ _ Hpre) as Hk. cbn in Hk. subst k'.
  apply prefix_cons_inv_2 in Hpre.
  assert (a = b) as ->.
  { eapply (NoDup_fst_functional ((k, b) :: t2)); [done| |apply list_elem_of_here].
    apply Hsub, list_elem_of_here. }
  apply NoDup_cons in Hnd as [Hnotin Hnd].
  apply prefix_cons, IH; [done| |done].
  intros [kp c] Hp.
  assert ((kp, c) ∈ (k, b) :: t2) as Hin by (apply Hsub; by apply elem_of_cons; right).
  apply elem_of_cons in Hin as [[= -> ->]|Hin]; [|done].
  exfalso. apply Hnotin.
  destruct Hpre as [rest Hrest]. rewrite Hrest. apply elem_of_app. left.
  apply list_elem_of_fmap. by exists (k, b).
Qed.

(** C7: in a run of a fresh pipeline the sequence numbers handed out are
    0, 1, 2, ... and so name the accepted submissions one by one.  The
    results handed to the caller carry, in order, the sequence numbers and
    the metadata handles of the first accepted submissions, each result the
    very handle that was passed to the [submitData] call which was given its
    number; and once every accepted submission has completed, calling
    [getResult] for each one that is still due hands back all of them: the
    results returned are, pair for pair, the sequence numbers and handles
    that went in. *)
Theorem C7_metadata_round_trip capacity evs os s :
  run (AsyncPipeline_new capacity) evs = Some (os, s) →
  (Z.of_nat (accepted os) ≤ INT64_MAX)%Z →
  (submissions evs os).*1 = seqZ 0 (Z.of_nat (accepted os))
  ∧ (∀ frameID metaData,
      (frameID, metaData) ∈ retrievedMetaData os →
      (frameID, metaData) ∈ submissions evs os
      ∧ ∀ metaData', (frameID, metaData') ∈ submissions evs os →
                     metaData' = metaData)
  ∧ retrievedMetaData os `prefix_of` submissions evs os
  ∧ length (retrievedMetaData os) = Z.to_nat (outputFrameId s)
  ∧ (released os = accepted os →
     ∃ os' s',
       run s (replicate (accepted os - Z.to_nat (outputFrameId s)) EvGetResult)
         = Some (os', s')
       ∧ retrievedMetaData (os ++ os') = submissions evs os).
Proof.
  intros Hrun Hroom.
  pose proof (wf_new capacity) as Hwf0.
  pose proof (run_submissions _ _ _ _ Hwf0 Hroom Hrun) as Hsubs.
  cbn in Hsubs.
  assert (meta_ok [] (AsyncPipeline_new capacity)) as Hmeta0.
  { split; [done|]. cbn. intros i sl cb Hi Hcb.
    apply lookup_replicate in Hi as [-> _]. done. }
  assert (NoDup ((submissions evs os).*1)) as Hnd.
  { rewrite Hsubs. apply NoDup_seqZ. }
  assert (∀ p, p ∈ retrievedMetaData os → p ∈ submissions evs os) as Hsub.
  { intros p Hp. by apply (run_meta _ _ _ _ _ Hwf0 Hmeta0 Hrun). }
  destruct (ordered_new capacity) as [Hord0 Hcov0].
  pose proof (run_wf _ _ _ _ Hwf0 Hrun) as Hwf.
  destruct (run_ordered _ _ _ _ Hwf0 Hord0 Hcov0 Hroom Hrun)
    as ((Hle & _) & Hcov & Hin & Hret & Hout).
  cbn in Hin, Hret, Hout. rewrite Z.sub_0_r in Hret.
  split; [done|]. split.
  { intros frameID metaData Hp. split; [by apply Hsub|].
    intros metaData' Hin'.
    exact (NoDup_fst_functional _ Hnd frameID metaData' metaData Hin' (Hsub _ Hp)). }
  split.
  { apply pairs_prefix; [done|done|].
    rewrite retrievedMetaData_fst, Hret, Hsubs.
    replace (Z.of_nat (accepted os))
      with (outputFrameId s + (Z.of_nat (accepted os) - outputFrameId s))%Z by lia.
    rewrite seqZ_app by lia. by eexists. }
  split.
  { rewrite <- (length_fmap fst), retrievedMetaData_fst, Hret, length_seqZ. done. }
  intros Hall.
  destruct (run_idleCount _ _ _ _ Hwf0 Hrun) as [Hcount Hlen].
  cbn [requestsPool AsyncPipeline_new] in Hcount, Hlen.
  rewrite idleCount_replicate in Hcount.
  unfold RequestsPool_new in Hlen. rewrite length_replicate in Hlen.
  assert (idleCount (requestsPool s) = length (requestsPool s)) as Hfull by lia.
  set (n := accepted os - Z.to_nat (outputFrameId s)).
  destruct (drain n s Hwf) as (os' & s' & Hrun' & Hret' & _).
  { unfold n. lia. }
  { intros k Hk.
    destruct (Hcov k) as [Hmap|(i & sl & cb & Hi & Hbusy & _)];
      [unfold n in Hk; lia|done|].
    rewrite (idleCount_full _ _ _ Hfull Hi) in Hbusy. done. }
  exists os', s'. split; [done|].
  pose proof (run_meta_ok _ _ _ _ _ Hwf0 Hmeta0 Hrun) as Hmeta. cbn in Hmeta.
  assert (∀ p, p ∈ retrievedMetaData (os ++ os') → p ∈ submissions evs os) as Hsub'.
  { intros p Hp. rewrite retrievedMetaData_app in Hp.
    apply elem_of_app in Hp as [Hp|Hp]; [by apply Hsub|].
    pose proof (run_meta _ _ _ _ _ Hwf Hmeta Hrun' _ Hp) as Hp'.
    by rewrite submissions_getResults, app_nil_r in Hp'. }
  assert ((retrievedMetaData (os ++ os')).*1 = (submissions evs os).*1) as Hfst.
  { rewrite retrievedMetaData_fst, retrieved_app, Hret, Hret', Hsubs.
    replace (Z.of_nat (accepted os))
      with (outputFrameId s + Z.of_nat n)%Z by (unfold n; lia).
    by rewrite seqZ_app by lia. }
  apply prefix_length_eq.
  - apply pairs_prefix; [done|done|]. by rewrite Hfst.
  - rewrite <- (length_fmap fst (submissions evs os)), <- Hfst, length_fmap. done.
Qed.

End MetaData.

(** ** Concrete runs *)

Example scenario_outputs :
  outputs (model:=demoModel) (AsyncPipeline_new 2) scenario =
  [OutSubmit 0; OutSubmit 1; OutSubmit (-1);
   OutComplete true; OutResult None;
   OutComplete true; OutWait WaitReturned;
   OutResult (Some {| res_frameId := 0; res_metaData := 100; res_payload := [0%Z] |});
   OutSubmit 2; OutComplete true;
   OutResult (Some {| res_frameId := 1; res_metaData := 101; res_payload := [1%Z] |});
   OutResult (Some {| res_frameId := 2; res_metaData := 102; res_payload := [2%Z] |})].
Proof. vm_compute. reflexivity. Qed.

Lemma C1_results_in_submission_order_witness :
  let os := outputs (model:=demoModel) (AsyncPipeline_new 2) scenario in
  let s := after (model:=demoModel) (AsyncPipeline_new 2) scenario in
  run (model:=demoModel) (AsyncPipeline_new 2) scenario = Some (os, s)
  ∧ (Z.of_nat (accepted os) ≤ INT64_MAX)%Z
  ∧ retrieved os = seqZ 0 (outputFrameId s).
Proof.
  intros os s.
  assert (run (model:=demoModel) (AsyncPipeline_new 2) scenario = Some (os, s))
    as Hrun by (vm_compute; reflexivity).
  assert (Z.of_nat (accepted os) ≤ INT64_MAX)%Z as Hroom by (vm_compute; discriminate).
  split; [exact Hrun|]. split; [exact Hroom|].
  exact (proj1 (C1_results_in_submission_order (model:=demoModel) 2 scenario os s Hrun Hroom)).
Defined.

Lemma C7_metadata_round_trip_witness :
  let evs := [EvSubmit 10 100; EvSubmit 11 101; EvSubmit 12 102;
              EvComplete 1 blobsReady; EvComplete 0 blobsReady] in
  let os := outputs (model:=demoModel) (AsyncPipeline_new 2) evs in
  let s := after (model:=demoModel) (AsyncPipeline_new 2) evs in
  run (model:=demoModel) (AsyncPipeline_new 2) evs = Some (os, s)
  ∧ (Z.of_nat (accepted os) ≤ INT64_MAX)%Z
  ∧ released os = accepted os
  ∧ submissions evs os = [(0%Z, 100); (1%Z, 101)]
  ∧ retrievedMetaData os = []
  ∧ ∃ os' s',
      run (model:=demoModel) s
        (replicate (accepted os - Z.to_nat (outputFrameId s)) EvGetResult)
        = Some (os', s')
      ∧ retrievedMetaData (os ++ os') = submissions evs os.
Proof.
  intros evs os s.
  assert (run (model:=demoModel) (AsyncPipeline_new 2) evs = Some (os, s))
    as Hrun by (vm_compute; reflexivity).
  assert (Z.of_nat (accepted os) ≤ INT64_MAX)%Z as Hroom by (vm_compute; discriminate).
  assert (released os = accepted os) as Hall by (vm_compute; reflexivity).
  split; [exact Hrun|]. split; [exact Hroom|]. split; [exact Hall|].
  split; [vm_compute; reflexivity|]. split; [vm_compute; reflexivity|].
  exact (proj2 (proj2 (proj2 (proj2
           (C7_metadata_round_trip (model:=demoModel) 2 evs os s Hrun Hroom))))
         Hall).
Defined.

(** C2, as the claim words it, fails: with one slot, one accepted submission
    and no retrieval at all, the second submission is accepted, because the
    completion continuation has already released the slot. *)
Lemma C2_counterexample :
  let evs := [EvSubmit 10 100; EvComplete 0 blobsReady] in
  let os := outputs (model:=demoModel) (AsyncPipeline_new 1) evs in
  let s := after (model:=demoModel) (AsyncPipeline_new 1) evs in
  run (model:=demoModel) (AsyncPipeline_new 1) evs = Some (os, s)
  ∧ accepted os = 1
  ∧ retrieved os = []
  ∧ (exec (submitData (model:=demoModel) 11 101) s).1 = 1%Z
  ∧ (exec (submitData (model:=demoModel) 11 101) s).1 ≠ (-1)%Z.
Proof. vm_compute. repeat split; discriminate. Qed.

Lemma C2_rejected_exactly_when_no_idle_slot_witness :
  let evs := [EvSubmit 10 100; EvSubmit 11 101; EvGetResult] in
  let os := outputs (model:=demoModel) (AsyncPipeline_new 2) evs in
  let s := after (model:=demoModel) (AsyncPipeline_new 2) evs in
  run (model:=demoModel) (AsyncPipeline_new 2) evs = Some (os, s)
  ∧ ((exec (submitData (model:=demoModel) 12 102) s).1 = (-1)%Z ↔
       isIdleRequestAvailable (requestsPool s) = false)
  ∧ (isIdleRequestAvailable (requestsPool s) = false ↔
       accepted os = 2 + released os).
Proof.
  intros evs os s.
  assert (run (model:=demoModel) (AsyncPipeline_new 2) evs = Some (os, s))
    as Hrun by (vm_compute; reflexivity).
  split; [exact Hrun|].
  destruct (C2_rejected_exactly_when_no_idle_slot (model:=demoModel) 2 evs os s 12 102 Hrun)
    as (Hrej & Hfull & _).
  split; [exact Hrej|exact Hfull].
Defined.

Lemma C3_first_error_wins_witness :
  let s := after (model:=demoModel) (AsyncPipeline_new 2)
            [EvSubmit 10 100; EvSubmit 11 101] in
  let s1 := after (model:=demoModel) s [EvComplete 0 (blobsThrow "first")] in
  let evs := [EvComplete 1 (blobsThrow "second")] in
  let s2 := after (model:=demoModel) s1 evs in
  wf s
  ∧ callbackException s = None
  ∧ callbackException s2 = Some "first"%string
  ∧ (exec (waitForData []) s2).1 = WaitRethrown "first".
Proof.
  intros s s1 evs s2.
  assert (wf s) as Hwf by compute_done.
  assert (callbackException s = None) as Hnone by reflexivity.
  assert (step (model:=demoModel) s (EvComplete 0 (blobsThrow "first"))
          = Some (OutComplete false, s1)) as Hstep by (vm_compute; reflexivity).
  assert (run (model:=demoModel) s1 evs
          = Some (outputs (model:=demoModel) s1 evs, s2)) as Hrun
    by (vm_compute; reflexivity).
  split; [exact Hwf|]. split; [exact Hnone|].
  destruct (C3_first_error_wins (model:=demoModel) s 0 (blobsThrow "first") s1 evs _ s2 [] Hwf Hnone
              Hstep Hrun) as (e & Hcopy & _ & He2 & Hwait).
  assert (e = "first"%string) as -> by (vm_compute in Hcopy; congruence).
  split; [exact He2|exact Hwait].
Defined.

Lemma C5_getResult_takes_the_cursor_entry_witness :
  let s := after (model:=demoModel) (AsyncPipeline_new 2)
            [EvSubmit 10 100; EvSubmit 11 101; EvComplete 1 blobsReady;
             EvComplete 0 blobsReady] in
  let r := {| frameId := 0; metaData := 100; internalModelData := 10;
              outputsData := {[ "detection_out"%string := [1%Z; 2%Z] ]} |} in
  wf s
  ∧ completedInferenceResults s !! outputFrameId s = Some r
  ∧ (outputFrameId s < INT64_MAX)%Z
  ∧ ∃ s',
      exec (getResult (model:=demoModel)) s
        = (Some (assign_ResultBase (postprocess (ModelBase:=demoModel) r) r), s')
      ∧ completedInferenceResults s' !! outputFrameId s = None
      ∧ outputFrameId s' = (outputFrameId s + 1)%Z.
Proof.
  intros s r. assert (wf s) as Hwf by compute_done.
  assert (completedInferenceResults s !! outputFrameId s = Some r) as Hl
    by (vm_compute; reflexivity).
  assert (outputFrameId s < INT64_MAX)%Z as Hlt by (vm_compute; reflexivity).
  split; [exact Hwf|]. split; [exact Hl|]. split; [exact Hlt|].
  destruct (proj2 (C5_getResult_takes_the_cursor_entry (model:=demoModel) s Hwf) r Hl)
    as (s' & Hget & _ & _ & Hgone & _ & Hadv & _).
  exists s'. split; [exact Hget|]. split; [exact Hgone|].
  exact (proj1 (Hadv Hlt)).
Defined.

Lemma C6_increment_overflows_at_INT64_MAX_witness :
  let s := set_inputFrameId INT64_MAX (AsyncPipeline_new 2) in
  wf s
  ∧ isIdleRequestAvailable (requestsPool s) = true
  ∧ inputFrameId s = INT64_MAX
  ∧ defined (submitData (model:=demoModel) 10 100) s = false
  ∧ step (model:=demoModel) s (EvSubmit 10 100) = None.
Proof.
  intros s. assert (wf s) as Hwf by compute_done.
  split; [exact Hwf|]. split; [vm_compute; reflexivity|].
  split; [vm_compute; reflexivity|].
  destruct (C6_increment_overflows_at_INT64_MAX (model:=demoModel) s Hwf)
    as [Hsubmit _].
  exact (proj2 (Hsubmit 10 100 eq_refl) eq_refl).
Defined.


Lemma C10_rejection_changes_nothing_witness :
  let s := after (model:=demoModel) (AsyncPipeline_new 1) [EvSubmit 10 100] in
  wf s
  ∧ isIdleRequestAvailable (requestsPool s) = false
  ∧ exec (submitData (model:=demoModel) 11 101) s = ((-1)%Z, s).
Proof.
  intros s. assert (wf s) as Hwf by compute_done.
  assert (isIdleRequestAvailable (requestsPool s) = false) as Hno by reflexivity.
  split; [exact Hwf|]. split; [exact Hno|].
  exact (proj1 (C10_rejection_changes_nothing (model:=demoModel) s 11 101 Hwf Hno)).
Defined.

(** C8, as the claim words it, fails: [submitData] touches the input cursor
    and the slot flags without the mutex, and [getResult] writes the output
    cursor after it has released the mutex. *)
Lemma C8_counterexample :
  all_under_mtx
    (footprint (submitData (model:=demoModel) 10 100) (AsyncPipeline_new 1)) = false
  ∧ mkAccess FInputFrameId Store false
      ∈ footprint (submitData (model:=demoModel) 10 100) (AsyncPipeline_new 1)
  ∧ all_under_mtx
      (footprint (getResult (model:=demoModel))
         (after (model:=demoModel) (AsyncPipeline_new 1)
            [EvSubmit 10 100; EvComplete 0 blobsReady])) = false
  ∧ mkAccess FOutputFrameId Store false
      ∈ footprint (getResult (model:=demoModel))
          (after (model:=demoModel) (AsyncPipeline_new 1)
             [EvSubmit 10 100; EvComplete 0 blobsReady]).
Proof.
  split; [reflexivity|]. split; [vm_compute; set_solver|].
  split; [reflexivity|]. vm_compute; set_solver.
Qed.


(** ** Where the slots are *)

Lemma runningCount_insert (p : RequestsPool) : ∀ i sl sl',
  p !! i = Some sl →
  runningCount (<[i := sl']> p) + (if running (slot_request sl) then 1 else 0) =
  runningCount p + (if running (slot_request sl') then 1 else 0).
Proof.
  induction p as [|sl0 rest IH]; intros i sl sl' Hl; [done|].
  destruct i as [|i]; simpl in *.
  - injection Hl as ->.
    destruct (running (slot_request sl)), (running (slot_request sl')); lia.
  - specialize (IH _ _ sl' Hl).
    destruct (running (slot_request sl)), (running (slot_request sl')),
      (running (slot_request sl0)); lia.
Qed.

Lemma idleCount_not_full (p : RequestsPool) i sl :
  p !! i = Some sl → slot_state sl = Busy → idleCount p < length p.
Proof.
  intros Hl Hbusy. pose proof (idleCount_le_length p) as Hle.
  destruct (decide (idleCount p = length p)) as [Hfull|]; [|lia].
  rewrite (idleCount_full _ _ _ Hfull Hl) in Hbusy. done.
Qed.

Section Slots.

Context {model : ModelBase}.

Lemma transition_runningCount s ev o s' :
  wf s → transition s ev o s' →
  runningCount (requestsPool s')
    + (if is_released o then 1 else 0) + (if is_failed o then 1 else 0) =
  runningCount (requestsPool s) + (if is_accepted o then 1 else 0).
Proof.
  intros Hwf HT. pose proof Hwf as (Hin & _).
  destruct HT as [? ?|inputData metaData request sl Hfind Hl Hidle
                 |request GetBlob sl cb outs Hl Hrun Hcb Hcopy
                 |request GetBlob sl cb e Hl Hrun Hcb Hcopy
                 |Hnone|r Hsome Hfid|Hwake]; cbn; try lia.
  - pose proof (runningCount_insert _ _ _
      (acquired {| cb_frameID := inputFrameId s; cb_request := request;
                   cb_internalModelData := preprocess inputData request;
                   cb_metaData := metaData |}) Hl) as Hc.
    destruct (wf_slot_at _ _ _ Hwf Hl) as [_ Hbusy].
    destruct (running (slot_request sl)); [specialize (Hbusy eq_refl); congruence|].
    cbn in Hc. destruct (Z.eqb_spec (inputFrameId s) (-1)); [lia|]. cbn. lia.
  - pose proof (runningCount_insert _ _ _ (finished cb Idle) Hl) as Hc.
    rewrite Hrun in Hc. cbn in Hc. lia.
  - pose proof (runningCount_insert _ _ _ (finished cb (slot_state sl)) Hl) as Hc.
    rewrite Hrun in Hc. cbn in Hc. lia.
Qed.

Lemma run_runningCount evs : ∀ s os s',
  wf s → run s evs = Some (os, s') →
  runningCount (requestsPool s') + released os + failed os =
  runningCount (requestsPool s) + accepted os.
Proof.
  induction evs as [|ev evs IH]; intros s os s' Hwf Hrun.
  - injection Hrun as <- <-. cbn. lia.
  - apply run_cons_inv in Hrun as (o & s1 & os1 & Hstep & Hrun & ->).
    pose proof (step_transition _ _ _ _ Hwf Hstep) as HT.
    pose proof (transition_runningCount _ _ _ _ Hwf HT) as Hc1.
    pose proof (IH _ _ _ (transition_wf _ _ _ _ Hwf HT) Hrun) as Hc.
    unfold accepted, released, failed in *. cbn. lia.
Qed.

Lemma runningCount_new capacity : runningCount (RequestsPool_new capacity) = 0.
Proof. unfold RequestsPool_new. induction capacity as [|n IH]; [done|]. cbn. by rewrite IH. Qed.

(** X2: along every run of a fresh pipeline each slot is idle, or running,
    or was left busy by a continuation that failed; the requests in flight
    are the accepted submissions whose continuation has not run yet, and
    there are never more of them than the pool has slots. *)
Theorem X2_slots_idle_running_or_lost capacity evs os s :
  run (AsyncPipeline_new capacity) evs = Some (os, s) →
  idleCount (requestsPool s) + runningCount (requestsPool s) + failed os = capacity
  ∧ runningCount (requestsPool s) + released os + failed os = accepted os
  ∧ length (requestsPool s) = capacity
  ∧ accepted os ≤ released os + capacity.
Proof.
  intros Hrun. pose proof (wf_new capacity) as Hwf0.
  destruct (run_idleCount _ _ _ _ Hwf0 Hrun) as [Hidle Hlen].
  pose proof (run_runningCount _ _ _ _ Hwf0 Hrun) as Hrunning.
  cbn [requestsPool AsyncPipeline_new] in Hidle, Hlen, Hrunning.
  rewrite idleCount_replicate in Hidle. rewrite runningCount_new in Hrunning.
  unfold RequestsPool_new in Hlen. rewrite length_replicate in Hlen.
  repeat split; lia.
Qed.

Lemma transition_lost s ev o s' request cb :
  requestsPool s !! request = Some (finished cb Busy) →
  transition s ev o s' →
  requestsPool s' !! request = Some (finished cb Busy).
Proof.
  intros Hlost HT.
  destruct HT as [? ?|inputData metaData request' sl Hfind Hl Hidle
                 |request' GetBlob sl cb' outs Hl Hrun Hcb Hcopy
                 |request' GetBlob sl cb' e Hl Hrun Hcb Hcopy
                 |Hnone|r Hsome Hfid|Hwake]; try done; cbn.
  - rewrite list_lookup_insert_ne; [done|]. intros ->.
    rewrite Hlost in Hl. injection Hl as <-. done.
  - rewrite list_lookup_insert_ne; [done|]. intros ->.
    rewrite Hlost in Hl. injection Hl as <-. done.
  - rewrite list_lookup_insert_ne; [done|]. intros ->.
    rewrite Hlost in Hl. injection Hl as <-. done.
Qed.

Lemma run_lost evs : ∀ s os s' request cb,
  wf s → requestsPool s !! request = Some (finished cb Busy) →
  run s evs = Some (os, s') →
  requestsPool s' !! request = Some (finished cb Busy).
Proof.
  induction evs as [|ev evs IH]; intros s os s' request cb Hwf Hlost Hrun.
  - by injection Hrun as <- <-.
  - apply run_cons_inv in Hrun as (o & s1 & os1 & Hstep & Hrun & ->).
    pose proof (step_transition _ _ _ _ Hwf Hstep) as HT.
    eapply IH; [by eapply transition_wf| |done].
    by eapply transition_lost.
Qed.

(** X3: a continuation that fails never gives its slot back.  From then on,
    whatever happens, that slot stays busy with no run under way: the
    backend has no completion left to signal for it, [submitData] never
    hands it out again, and the pool is never again entirely idle. *)
Theorem X3_failed_continuation_loses_its_slot
    s request GetBlob s1 evs os s2 :
  wf s →
  step s (EvComplete request GetBlob) = Some (OutComplete false, s1) →
  run s1 evs = Some (os, s2) →
  ∃ cb,
    requestsPool s2 !! request = Some (finished cb Busy)
    ∧ (∀ GetBlob', step s2 (EvComplete request GetBlob') = None)
    ∧ find_idle (requestsPool s2) 0 ≠ Some request
    ∧ idleCount (requestsPool s2) < length (requestsPool s2).
Proof.
  intros Hwf Hstep Hrun.
  pose proof (step_transition _ _ _ _ Hwf Hstep) as HT.
  pose proof (transition_wf _ _ _ _ Hwf HT) as Hwf1.
  inversion HT as [| | |request' GetBlob' sl cb e Hl Hrunning Hcb Hcopy| | |];
    subst.
  destruct (wf_slot_at _ _ _ Hwf Hl) as [_ Hbusy]. specialize (Hbusy Hrunning).
  exists cb.
  assert (requestsPool s2 !! request = Some (finished cb Busy)) as Hlost.
  { eapply run_lost; [exact Hwf1| |exact Hrun]. cbn. rewrite Hbusy.
    apply list_lookup_insert_eq. by eapply lookup_lt_Some. }
  split; [done|]. split; [|split].
  - intros GetBlob''. cbn. by rewrite Hlost.
  - intros Hfind. destruct (find_idle_Some _ _ _ Hfind) as (_ & sl' & Hl' & Hidle).
    rewrite Nat.sub_0_r, Hlost in Hl'. injection Hl' as <-. done.
  - by eapply idleCount_not_full.
Qed.

End Slots.

(** ** Results in flight *)

Lemma emplace_lookup_None `{Countable K} {V} (k k' : K) (v : V) (m : gmap K V) :
  m !! k' = None → k' ≠ k → emplace k v m !! k' = None.
Proof.
  intros Hnone Hne. destruct (emplace k v m !! k') as [r|] eqn:Hl; [|done].
  apply emplace_lookup_Some in Hl as [Hl|[-> _]]; congruence.
Qed.

Lemma emplace_fresh `{Countable K} {V} (k : K) (v : V) (m : gmap K V) :
  m !! k = None → emplace k v m = <[k := v]> m.
Proof. intros Hnone. unfold emplace. by rewrite Hnone. Qed.

Section InFlight.

Context {model : ModelBase}.

Lemma inflight_fresh_new capacity : inflight_fresh (AsyncPipeline_new capacity).
Proof.
  intros i sl cb Hi Hrun Hcb. cbn in Hi.
  apply lookup_replicate in Hi as [-> _]. done.
Qed.

Lemma transition_inflight_fresh s ev o s' :
  wf s → ordered s → inflight_fresh s →
  (is_accepted o = true → (inputFrameId s < INT64_MAX)%Z) →
  transition s ev o s' → inflight_fresh s'.
Proof.
  intros Hwf (Hle & Hkeys & Hcbs) Hfresh Hroom HT.
  pose proof Hwf as (Hin & Hout & _).
  destruct HT as [? ?|inputData metaData request sl Hfind Hl Hidle
                 |request GetBlob sl cb outs Hl Hrun Hcb Hcopy
                 |request GetBlob sl cb e Hl Hrun Hcb Hcopy
                 |Hnone|r Hsome Hfid|Hwake]; try done.
  - assert (inputFrameId s < INT64_MAX)%Z as Hlt.
    { apply Hroom. cbn. destruct (Z.eqb_spec (inputFrameId s) (-1)); [lia|done]. }
    intros i sl1 cb1 Hi Hrun1 Hcb1. cbn in Hi |- *.
    rewrite next_frameId_small by lia.
    apply list_lookup_insert_Some in Hi as [(<- & <- & _)|[Hne Hi]].
    + cbn in Hcb1. injection Hcb1 as <-. cbn. split; [lia|]. split.
      * destruct (completedInferenceResults s !! inputFrameId s) as [r|] eqn:Hk;
          [|done].
        specialize (Hkeys _ _ Hk). lia.
      * intros j sl' cb' Hj Hrun' Hcb' Hsame.
        apply list_lookup_insert_Some in Hj as [(<- & _)|[_ Hj]]; [done|].
        specialize (Hcbs _ _ _ Hj Hcb'). lia.
    + destruct (Hfresh _ _ _ Hi Hrun1 Hcb1) as (Hb & Hnone & Huniq).
      split; [lia|]. split; [done|].
      intros j sl' cb' Hj Hrun' Hcb' Hsame.
      apply list_lookup_insert_Some in Hj as [(<- & <- & _)|[_ Hj]].
      * cbn in Hcb'. injection Hcb' as <-. cbn in Hsame. lia.
      * by eapply Huniq.
  - intros i sl1 cb1 Hi Hrun1 Hcb1. cbn in Hi |- *.
    apply list_lookup_insert_Some in Hi as [(<- & <- & _)|[Hne Hi]]; [done|].
    destruct (Hfresh _ _ _ Hi Hrun1 Hcb1) as (Hb & Hnone & Huniq).
    split; [done|]. split.
    + apply emplace_lookup_None; [done|]. intros Hsame.
      apply Hne. by apply (Huniq request sl cb).
    + intros j sl' cb' Hj Hrun' Hcb' Hsame.
      apply list_lookup_insert_Some in Hj as [(<- & <- & _)|[_ Hj]]; [done|].
      by eapply Huniq.
  - intros i sl1 cb1 Hi Hrun1 Hcb1. cbn in Hi |- *.
    apply list_lookup_insert_Some in Hi as [(<- & <- & _)|[Hne Hi]]; [done|].
    destruct (Hfresh _ _ _ Hi Hrun1 Hcb1) as (Hb & Hnone & Huniq).
    split; [done|]. split; [done|].
    intros j sl' cb' Hj Hrun' Hcb' Hsame.
    apply list_lookup_insert_Some in Hj as [(<- & <- & _)|[_ Hj]]; [done|].
    by eapply Huniq.
  - pose proof (Hkeys _ _ Hsome) as Hlt.
    intros i sl1 cb1 Hi Hrun1 Hcb1. cbn in Hi |- *.
    rewrite next_frameId_small by lia.
    destruct (Hfresh _ _ _ Hi Hrun1 Hcb1) as (Hb & Hnone & Huniq).
    assert (cb_frameID cb1 ≠ outputFrameId s) as Hne by (intros Heq; congruence).
    split; [lia|]. split; [|done].
    by rewrite lookup_delete_ne.
Qed.

(** One step changes the number of stored results by what it stores and
    what it hands over. *)
Lemma transition_size s ev o s' :
  wf s → inflight_fresh s → transition s ev o s' →
  size (completedInferenceResults s') + length (retrieved [o]) =
  size (completedInferenceResults s) + (if is_released o then 1 else 0).
Proof.
  intros Hwf Hfresh HT.
  destruct HT as [? ?|inputData metaData request sl Hfind Hl Hidle
                 |request GetBlob sl cb outs Hl Hrun Hcb Hcopy
                 |request GetBlob sl cb e Hl Hrun Hcb Hcopy
                 |Hnone|r Hsome Hfid|Hwake]; cbn; try lia.
  - destruct (Hfresh _ _ _ Hl Hrun Hcb) as (_ & Hnone & _).
    rewrite (emplace_fresh _ _ _ Hnone), map_size_insert_None by done. lia.
  - assert (size (completedInferenceResults s) ≠ 0) as Hpos.
    { intros Hz. apply map_size_empty_inv in Hz. rewrite Hz in Hsome. done. }
    rewrite map_size_delete_Some by by eexists. lia.
Qed.

Lemma run_inflight evs : ∀ s os s',
  wf s → ordered s → inflight_fresh s →
  (inputFrameId s + Z.of_nat (accepted os) ≤ INT64_MAX)%Z →
  run s evs = Some (os, s') →
  wf s' ∧ ordered s' ∧ inflight_fresh s'
  ∧ size (completedInferenceResults s') + length (retrieved os) =
    size (completedInferenceResults s) + released os.
Proof.
  induction evs as [|ev evs IH]; intros s os s' Hwf Hord Hfresh Hroom Hrun.
  - injection Hrun as <- <-.
    split; [done|]. split; [done|]. split; [done|]. cbn. lia.
  - apply run_cons_inv in Hrun as (o & s1 & os1 & Hstep & Hrun & ->).
    pose proof (step_transition _ _ _ _ Hwf Hstep) as HT.
    pose proof (transition_wf _ _ _ _ Hwf HT) as Hwf1.
    pose proof (transition_inputFrameId _ _ _ _ Hwf HT) as Hin1.
    pose proof Hwf as (Hin & _).
    unfold accepted in Hroom. cbn [tally] in Hroom. fold (accepted os1) in Hroom.
    assert (is_accepted o = true → (inputFrameId s < INT64_MAX)%Z) as Hroom1.
    { intros Ho. rewrite Ho in Hroom. lia. }
    assert (inputFrameId s1 + Z.of_nat (accepted os1) ≤ INT64_MAX)%Z as Hroom'.
    { rewrite Hin1. destruct (is_accepted o); [|lia].
      rewrite next_frameId_small; [lia|]. split; [lia|]. by apply Hroom1. }
    pose proof (transition_ordered _ _ _ _ Hwf Hord Hroom1 HT) as Hord1.
    pose proof (transition_inflight_fresh _ _ _ _ Hwf Hord Hfresh Hroom1 HT) as Hfr1.
    pose proof (transition_size _ _ _ _ Hwf Hfresh HT) as Hsize1.
    destruct (IH s1 os1 s' Hwf1 Hord1 Hfr1 Hroom' Hrun) as (Hwf' & Hord' & Hfr' & Hsize).
    split; [done|]. split; [done|]. split; [done|].
    rewrite retrieved_cons, length_app.
    unfold released. cbn [tally]. fold (released os1). lia.
Qed.

Lemma step_complete_enabled s request GetBlob sl cb :
  requestsPool s !! request = Some sl →
  running (slot_request sl) = true →
  completionCallback (slot_request sl) = Some cb →
  ∃ s1, step s (EvComplete request GetBlob)
        = Some (OutComplete (callbackSucceeds GetBlob), s1).
Proof. intros Hl Hrun Hcb. cbn. rewrite Hl, Hrun, Hcb. by eexists. Qed.

(** X4: in a run of a fresh pipeline, when the backend signals the
    completion of a running request and all its blobs can be copied, the
    map gains exactly one entry: under the sequence number the request was
    submitted with, the result built from that number, the metadata and the
    internal model data captured at submission, and the copied blobs.  No
    other entry changes and the slot is idle again. *)
Theorem X4_completion_stores_its_own_result
    capacity evs os s request GetBlob sl cb outs :
  run (AsyncPipeline_new capacity) evs = Some (os, s) →
  (Z.of_nat (accepted os) ≤ INT64_MAX)%Z →
  requestsPool s !! request = Some sl →
  running (slot_request sl) = true →
  completionCallback (slot_request sl) = Some cb →
  copyOutputs GetBlob getOutputsNames ∅ = inr outs →
  ∃ s1,
    step s (EvComplete request GetBlob) = Some (OutComplete true, s1)
    ∧ completedInferenceResults s !! cb_frameID cb = None
    ∧ completedInferenceResults s1 !! cb_frameID cb =
        Some {| frameId := cb_frameID cb; metaData := cb_metaData cb;
                internalModelData := cb_internalModelData cb;
                outputsData := outs |}
    ∧ (∀ k, k ≠ cb_frameID cb →
         completedInferenceResults s1 !! k = completedInferenceResults s !! k)
    ∧ size (completedInferenceResults s1) = S (size (completedInferenceResults s))
    ∧ requestsPool s1 !! request = Some (finished cb Idle)
    ∧ (outputFrameId s ≤ cb_frameID cb < inputFrameId s)%Z.
Proof.
  intros Hrun Hroom Hl Hrunning Hcb Hcopy.
  pose proof (wf_new capacity) as Hwf0.
  destruct (ordered_new capacity) as [Hord0 _].
  destruct (run_inflight _ _ _ _ Hwf0 Hord0 (inflight_fresh_new capacity) Hroom Hrun)
    as (Hwf & _ & Hfresh & _).
  destruct (Hfresh _ _ _ Hl Hrunning Hcb) as (Hb & Hnone & _).
  destruct (step_complete_enabled s request GetBlob sl cb Hl Hrunning Hcb)
    as [s1 Hstep].
  unfold callbackSucceeds in Hstep. rewrite Hcopy in Hstep.
  exists s1. split; [done|]. split; [done|].
  pose proof (step_transition _ _ _ _ Hwf Hstep) as HT.
  inversion HT as [| |request' GetBlob' sl' cb' outs' Hl' Hrun' Hcb' Hcopy'| | | |];
    subst.
  assert (sl' = sl) as -> by congruence.
  assert (cb' = cb) as -> by congruence.
  assert (outs' = outs) as -> by congruence.
  cbn. rewrite (emplace_fresh _ _ _ Hnone).
  split; [apply lookup_insert_eq|].
  split; [intros k Hk; by apply lookup_insert_ne|].
  split; [by apply map_size_insert_None|].
  split; [|done]. apply list_lookup_insert_eq. by eapply lookup_lt_Some.
Qed.

(** X5: in a run of a fresh pipeline no result is ever dropped or stored
    twice: the map holds exactly the results of the continuations that
    succeeded and have not been handed to the caller yet. *)
Theorem X5_map_holds_completed_minus_retrieved capacity evs os s :
  run (AsyncPipeline_new capacity) evs = Some (os, s) →
  (Z.of_nat (accepted os) ≤ INT64_MAX)%Z →
  size (completedInferenceResults s) + length (retrieved os) = released os
  ∧ length (retrieved os) = Z.to_nat (outputFrameId s).
Proof.
  intros Hrun Hroom.
  pose proof (wf_new capacity) as Hwf0.
  destruct (ordered_new capacity) as [Hord0 Hcov0].
  destruct (run_inflight _ _ _ _ Hwf0 Hord0 (inflight_fresh_new capacity) Hroom Hrun)
    as (_ & _ & _ & Hsize).
  destruct (run_ordered _ _ _ _ Hwf0 Hord0 Hcov0 Hroom Hrun)
    as (_ & _ & _ & Hret & _).
  cbn in Hsize, Hret. rewrite map_size_empty in Hsize.
  split; [lia|]. rewrite Hret, length_seqZ. f_equal. lia.
Qed.

End InFlight.

(** ** Retrieval behind a failed continuation *)

Section Stall.

Context {model : ModelBase}.

Lemma transition_stalled f s ev o s' :
  wf s → stalled f s →
  (is_accepted o = true → (inputFrameId s < INT64_MAX)%Z) →
  transition s ev o s' → stalled f s'.
Proof.
  intros Hwf (Hb & Hnone & Hslots) Hroom HT.
  pose proof Hwf as (Hin & Hout & _).
  destruct HT as [? ?|inputData metaData request sl Hfind Hl Hidle
                 |request GetBlob sl cb outs Hl Hrun Hcb Hcopy
                 |request GetBlob sl cb e Hl Hrun Hcb Hcopy
                 |Hnone'|r Hsome Hfid|Hwake]; try done.
  - assert (inputFrameId s < INT64_MAX)%Z as Hlt.
    { apply Hroom. cbn. destruct (Z.eqb_spec (inputFrameId s) (-1)); [lia|done]. }
    unfold stalled. cbn. rewrite next_frameId_small by lia.
    split; [lia|]. split; [done|].
    intros i sl1 cb1 Hi Hrun1 Hcb1.
    apply list_lookup_insert_Some in Hi as [(<- & <- & _)|[_ Hi]].
    + cbn in Hcb1. injection Hcb1 as <-. cbn. lia.
    + by eapply Hslots.
  - unfold stalled. cbn. split; [done|]. split.
    + apply emplace_lookup_None; [done|]. intros Hsame.
      by apply (Hslots _ _ _ Hl Hrun Hcb).
    + intros i sl1 cb1 Hi Hrun1 Hcb1.
      apply list_lookup_insert_Some in Hi as [(<- & <- & _)|[_ Hi]]; [done|].
      by eapply Hslots.
  - unfold stalled. cbn. split; [done|]. split; [done|].
    intros i sl1 cb1 Hi Hrun1 Hcb1.
    apply list_lookup_insert_Some in Hi as [(<- & <- & _)|[_ Hi]]; [done|].
    by eapply Hslots.
  - assert (f ≠ outputFrameId s) as Hne by (intros ->; congruence).
    unfold stalled. cbn. rewrite next_frameId_small by lia.
    split; [lia|]. split; [|done]. by rewrite lookup_delete_ne.
Qed.

Lemma run_stalled f evs : ∀ s os s',
  wf s → stalled f s →
  (inputFrameId s + Z.of_nat (accepted os) ≤ INT64_MAX)%Z →
  run s evs = Some (os, s') → stalled f s'.
Proof.
  induction evs as [|ev evs IH]; intros s os s' Hwf Hst Hroom Hrun.
  - by injection Hrun as <- <-.
  - apply run_cons_inv in Hrun as (o & s1 & os1 & Hstep & Hrun & ->).
    pose proof (step_transition _ _ _ _ Hwf Hstep) as HT.
    pose proof (transition_wf _ _ _ _ Hwf HT) as Hwf1.
    pose proof (transition_inputFrameId _ _ _ _ Hwf HT) as Hin1.
    pose proof Hwf as (Hin & _).
    unfold accepted in Hroom. cbn [tally] in Hroom. fold (accepted os1) in Hroom.
    assert (is_accepted o = true → (inputFrameId s < INT64_MAX)%Z) as Hroom1.
    { intros Ho. rewrite Ho in Hroom. lia. }
    apply (IH s1 os1 s' Hwf1); [|  |done].
    + by apply (transition_stalled f s ev o s1).
    + rewrite Hin1. destruct (is_accepted o); [|lia].
      rewrite next_frameId_small; [lia|]. split; [lia|]. by apply Hroom1.
Qed.

(** X6: in a run of a fresh pipeline, once the continuation of the
    submission numbered [f] has failed, the output cursor never gets past
    [f]: the result for [f] never reaches the map, and neither that result
    nor any later one is ever handed to the caller, whatever is submitted,
    completed or retrieved afterwards. *)
Theorem X6_retrieval_stalls_at_a_failed_frame
    capacity evs1 os1 s request GetBlob sl cb s1 evs2 os2 s2 :
  run (AsyncPipeline_new capacity) evs1 = Some (os1, s) →
  requestsPool s !! request = Some sl →
  completionCallback (slot_request sl) = Some cb →
  step s (EvComplete request GetBlob) = Some (OutComplete false, s1) →
  run s1 evs2 = Some (os2, s2) →
  (Z.of_nat (accepted os1 + accepted os2) ≤ INT64_MAX)%Z →
  (outputFrameId s2 ≤ cb_frameID cb < inputFrameId s2)%Z
  ∧ completedInferenceResults s2 !! cb_frameID cb = None
  ∧ ∀ k, k ∈ retrieved (os1 ++ os2) → (k < cb_frameID cb)%Z.
Proof.
  intros Hrun1 Hl Hcb Hstep Hrun2 Hroom.
  pose proof (wf_new capacity) as Hwf0.
  destruct (ordered_new capacity) as [Hord0 Hcov0].
  assert (0 + Z.of_nat (accepted os1) ≤ INT64_MAX)%Z as Hroom1 by lia.
  destruct (run_inflight _ _ _ _ Hwf0 Hord0 (inflight_fresh_new capacity)
              Hroom1 Hrun1) as (Hwf & Hord & Hfresh & _).
  destruct (run_ordered _ _ _ _ Hwf0 Hord0 Hcov0 Hroom1 Hrun1)
    as (_ & Hcov & Hin & Hret1 & _).
  cbn in Hin, Hret1. rewrite Z.sub_0_r in Hret1.
  pose proof (step_transition _ _ _ _ Hwf Hstep) as HT.
  pose proof (transition_wf _ _ _ _ Hwf HT) as Hwf1.
  assert (is_accepted (OutComplete false) = true → (inputFrameId s < INT64_MAX)%Z)
    as Hnoacc by done.
  pose proof (transition_ordered _ _ _ _ Hwf Hord Hnoacc HT) as Hord1.
  pose proof (transition_covered _ _ _ _ Hwf Hord Hcov Hnoacc HT) as Hcov1.
  assert (stalled (cb_frameID cb) s1 ∧ outputFrameId s1 = outputFrameId s
          ∧ inputFrameId s1 = inputFrameId s) as (Hst1 & Hout1 & Hin1).
  { inversion HT as [| | |request' GetBlob' sl' cb' e Hl' Hrunning Hcb' Hcopy| | |];
      subst.
    assert (sl' = sl) as -> by congruence.
    assert (cb' = cb) as -> by congruence.
    destruct (Hfresh _ _ _ Hl Hrunning Hcb) as (Hb & Hnone & Huniq).
    split; [|done]. split; [done|]. split; [done|]. cbn.
    intros i sl1 cb1 Hi Hrun1' Hcb1 Hsame.
    apply list_lookup_insert_Some in Hi as [(<- & <- & _)|[Hne Hi]]; [done|].
    apply Hne. symmetry. by apply (Huniq i sl1 cb1). }
  assert (inputFrameId s1 + Z.of_nat (accepted os2) ≤ INT64_MAX)%Z as Hroom2 by lia.
  destruct (run_stalled _ _ _ _ _ Hwf1 Hst1 Hroom2 Hrun2) as (Hb2 & Hnone2 & _).
  destruct (run_ordered _ _ _ _ Hwf1 Hord1 Hcov1 Hroom2 Hrun2)
    as (_ & _ & _ & Hret2 & Hle2).
  split; [done|]. split; [done|].
  intros k Hk. rewrite retrieved_app, Hret1, Hret2 in Hk.
  apply elem_of_app in Hk as [Hk|Hk]; apply elem_of_seqZ in Hk; lia.
Qed.

End Stall.

(** ** Edges *)

Section Edges.

Context {model : ModelBase}.

(** X8: when [waitForData] returns without throwing, the caller can go on:
    in the state in which the wait ended either a submission would be
    accepted or [getResult] would hand over the result under the output
    cursor. *)
Theorem X8_wait_returns_when_the_caller_can_proceed s wakes st :
  first_ready s wakes = Some st →
  wf st →
  callbackException st = None →
  (exec (waitForData wakes) s).1 = WaitReturned
  ∧ ((∀ inputData metaData,
        (exec (submitData inputData metaData) st).1 = inputFrameId st
        ∧ (exec (submitData inputData metaData) st).1 ≠ (-1)%Z)
     ∨ (∃ r st', exec getResult st = (Some r, st')
                 ∧ res_frameId r = outputFrameId st)).
Proof.
  intros Hready Hwf Hnone. rewrite waitForData_eq, Hready, Hnone.
  split; [done|].
  destruct (first_ready_Some _ _ _ Hready) as (_ & _ & _ & Hwake & _).
  unfold wakeCondition in Hwake. rewrite Hnone in Hwake. cbn in Hwake.
  apply orb_true_iff in Hwake as [Hidle|Hentry].
  - left. intros inputData metaData.
    destruct (submitData_accepted inputData metaData st Hidle)
      as (request & sl & _ & _ & _ & ->). cbn.
    split; [done|]. destruct Hwf as (Hin & _). lia.
  - right. apply bool_decide_eq_true in Hentry.
    destruct (completedInferenceResults st !! outputFrameId st) as [r|] eqn:Hl;
      [|done].
    eexists _, _. split; [by apply getResult_some|]. cbn.
    by destruct (wf_entry_at _ _ _ Hwf Hl) as [-> _].
Qed.

(** X12: [waitForData] blocks only when the caller has nothing to do: in a
    state in which it would block, every submission is rejected and
    [getResult] returns the null result, both leaving the state as it is. *)
Theorem X12_blocked_wait_means_nothing_to_do s :
  (exec (waitForData []) s).1 = WaitBlocked →
  (∀ inputData metaData, exec (submitData inputData metaData) s = ((-1)%Z, s))
  ∧ exec getResult s = (None, s).
Proof.
  rewrite waitForData_eq. cbn.
  destruct (wakeCondition s) eqn:Hwake; [by destruct (callbackException s)|].
  intros _. unfold wakeCondition in Hwake.
  apply orb_false_iff in Hwake as [Hwake Hentry].
  apply orb_false_iff in Hwake as [_ Hidle].
  split; [intros; by apply submitData_rejected|].
  apply getResult_none. apply bool_decide_eq_false in Hentry.
  destruct (completedInferenceResults s !! outputFrameId s); [|done].
  exfalso. by apply Hentry.
Qed.

(** X9: a pipeline built with no request at all can do nothing: every
    submission is rejected, no completion can be signalled, [getResult]
    always returns the null result, the state never changes, and
    [waitForData] never returns. *)
Theorem X9_empty_pool_is_inert evs os s :
  run (AsyncPipeline_new 0) evs = Some (os, s) →
  s = AsyncPipeline_new 0
  ∧ Forall (λ o, o = OutSubmit (-1) ∨ o = OutResult None) os
  ∧ Forall (λ ev, (∃ inputData metaData, ev = EvSubmit inputData metaData)
                  ∨ ev = EvGetResult) evs
  ∧ ∀ n, (exec (waitForData (replicate n s)) s).1 = WaitBlocked.
Proof.
  revert os s. induction evs as [|ev evs IH]; intros os s Hrun.
  - injection Hrun as <- <-. split; [done|]. split; [done|]. split; [done|].
    intros n. rewrite waitForData_eq.
    assert (first_ready (AsyncPipeline_new 0) (replicate n (AsyncPipeline_new 0))
            = None) as ->; [|done].
    apply first_ready_None. constructor; [done|].
    apply Forall_forall. intros st Hst. by apply elem_of_replicate in Hst as [-> _].
  - apply run_cons_inv in Hrun as (o & s1 & os1 & Hstep & Hrun & ->).
    destruct ev as [inputData metaData|request GetBlob| |]; cbn in Hstep;
      try done.
    + rewrite submitData_rejected in Hstep by done. injection Hstep as <- <-.
      destruct (IH _ _ Hrun) as (-> & Hos & Hevs & Hwait).
      split; [done|]. split; [constructor; [by left|done]|].
      split; [|done]. constructor; [|done]. left. by eexists _, _.
    + rewrite getResult_none in Hstep by done. injection Hstep as <- <-.
      destruct (IH _ _ Hrun) as (-> & Hos & Hevs & Hwait).
      split; [done|]. split; [constructor; [by right|done]|].
      split; [|done]. constructor; [by right|done].
Qed.

(** X10: what [getResult] returns is the result of the model adapter's
    [postprocess] with its sequence number and its metadata handle
    overwritten by those of the stored inference result: whatever
    [postprocess] puts there does not reach the caller. *)
Theorem X10_getResult_overrides_base_fields s r s' :
  exec getResult s = (Some r, s') →
  ∃ infResult,
    completedInferenceResults s !! outputFrameId s = Some infResult
    ∧ res_frameId r = frameId infResult
    ∧ res_metaData r = metaData infResult
    ∧ res_payload r = res_payload (postprocess infResult)
    ∧ completedInferenceResults s' = delete (outputFrameId s) (completedInferenceResults s).
Proof.
  rewrite getResult_eq, getInferenceResult_eq.
  destruct (completedInferenceResults s !! outputFrameId s) as [inf|] eqn:Hl;
    [|done].
  destruct (IsEmpty inf); [done|]. intros [= <- <-]. by exists inf.
Qed.

End Edges.

(** ** Construction *)

Lemma setBatchOne_spec dims dims' :
  setBatchOne dims = Some dims' →
  dims' !! 0 = Some 1
  ∧ length dims' = length dims
  ∧ ∀ i, 0 < i → dims' !! i = dims !! i.
Proof.
  destruct dims as [|d rest]; [done|]. intros [= <-]. cbn.
  split; [done|]. split; [done|]. intros [|i] Hi; [lia|done].
Qed.

Lemma forceBatchOne_None shapes :
  forceBatchOne shapes = None ↔ ∃ name, shapes !! name = Some [].
Proof.
  unfold forceBatchOne. case_decide as Hall.
  - split; [done|]. intros [name Hname].
    destruct (Hall name [] Hname) as [dims' Hd]. done.
  - split; [|done]. intros _.
    apply map_not_Forall in Hall; [|apply _].
    destruct Hall as (name & dims & Hname & Hnot).
    exists name. destruct dims as [|d rest]; [done|].
    exfalso. apply Hnot. by eexists.
Qed.

Lemma forceBatchOne_Some shapes reshaped :
  forceBatchOne shapes = Some reshaped →
  ∀ name, reshaped !! name = shapes !! name ≫= setBatchOne.
Proof.
  unfold forceBatchOne. case_decide as Hall; [|done]. intros [= <-] name.
  apply lookup_omap.
Qed.

Lemma reshapedTo_ctor modelFileName cnnConfig inputShapes calls s :
  AsyncPipeline_ctor modelFileName cnnConfig inputShapes = Some (calls, s) →
  ∃ reshaped,
    forceBatchOne inputShapes = Some reshaped ∧ reshapedTo calls = Some reshaped.
Proof.
  unfold AsyncPipeline_ctor.
  destruct (forceBatchOne inputShapes) as [reshaped|]; [|done].
  intros [= <- <-]. exists reshaped. split; [done|]. cbn.
  by destruct (decide (cpuExtensionsPath cnnConfig = EmptyString)),
              (decide (clKernelsConfigPath cnnConfig = EmptyString)).
Qed.

(** X11: the constructor has a defined outcome exactly when no input of
    the network has rank 0, where the write [shape.second[0] = 1] would be
    out of range.  When it has one, it reshapes the network to batch size 1
    and nothing else: the shapes handed to [reshape] name the same inputs,
    and for every input the first dimension is 1 while the rank and all
    other dimensions are those the network file reported. *)
Theorem X11_constructor_forces_batch_one modelFileName cnnConfig inputShapes :
  (AsyncPipeline_ctor modelFileName cnnConfig inputShapes = None ↔
     ∃ name, inputShapes !! name = Some [])
  ∧ ∀ calls s,
      AsyncPipeline_ctor modelFileName cnnConfig inputShapes = Some (calls, s) →
      ∃ reshaped,
        reshapedTo calls = Some reshaped
        ∧ dom reshaped = dom inputShapes
        ∧ (∀ name dims, inputShapes !! name = Some dims →
             ∃ dims', reshaped !! name = Some dims'
                      ∧ dims' !! 0 = Some 1
                      ∧ length dims' = length dims
                      ∧ ∀ i, 0 < i → dims' !! i = dims !! i)
        ∧ forceBatchOne reshaped = Some reshaped.
Proof.
  split.
  - rewrite <- forceBatchOne_None. unfold AsyncPipeline_ctor.
    by destruct (forceBatchOne inputShapes).
  - intros calls s Hctor.
    destruct (reshapedTo_ctor _ _ _ _ _ Hctor) as (reshaped & Hforce & Hcall).
    exists reshaped. split; [done|].
    pose proof (forceBatchOne_Some _ _ Hforce) as Hlookup.
    assert (∀ name dims, inputShapes !! name = Some dims →
              ∃ dims', setBatchOne dims = Some dims'
                       ∧ reshaped !! name = Some dims') as Heach.
    { intros name dims Hname.
      destruct (setBatchOne dims) as [dims'|] eqn:Hset.
      - exists dims'. split; [done|]. by rewrite Hlookup, Hname.
      - exfalso. destruct dims; [|done].
        assert (forceBatchOne inputShapes = None) as Hnone
          by (apply forceBatchOne_None; by exists name).
        congruence. }
    split; [|split].
    + apply set_eq. intros name. rewrite !elem_of_dom, Hlookup.
      destruct (inputShapes !! name) as [dims|] eqn:Hname; cbn.
      * destruct (Heach name dims Hname) as (dims' & -> & _).
        split; intros _; by eexists.
      * split; intros [? ?]; done.
    + intros name dims Hname.
      destruct (Heach name dims Hname) as (dims' & Hset & Hre).
      exists dims'. split; [done|]. by apply (setBatchOne_spec dims).
    + destruct (forceBatchOne reshaped) as [again|] eqn:Hagain.
      * f_equal. apply map_eq. intros name.
        rewrite (forceBatchOne_Some _ _ Hagain), Hlookup.
        destruct (inputShapes !! name) as [[|d rest]|]; done.
      * exfalso. apply forceBatchOne_None in Hagain as [name Hname].
        rewrite Hlookup in Hname.
        destruct (inputShapes !! name) as [[|d rest]|]; done.
Qed.

(** ** Concrete runs, continued *)

Lemma X2_slots_idle_running_or_lost_witness :
  let evs := [EvSubmit 10 100; EvSubmit 11 101;
              EvComplete 0 (blobsThrow "lost"); EvComplete 1 blobsReady;
              EvSubmit 12 102] in
  let os := outputs (model:=demoModel) (AsyncPipeline_new 3) evs in
  let s := after (model:=demoModel) (AsyncPipeline_new 3) evs in
  run (model:=demoModel) (AsyncPipeline_new 3) evs = Some (os, s)
  ∧ idleCount (requestsPool s) + runningCount (requestsPool s) + failed os = 3.
Proof.
  intros evs os s.
  assert (run (model:=demoModel) (AsyncPipeline_new 3) evs = Some (os, s))
    as Hrun by (vm_compute; reflexivity).
  split; [exact Hrun|].
  exact (proj1 (X2_slots_idle_running_or_lost (model:=demoModel) 3 evs os s Hrun)).
Defined.

Lemma X3_failed_continuation_loses_its_slot_witness :
  let s := after (model:=demoModel) (AsyncPipeline_new 2)
            [EvSubmit 10 100; EvSubmit 11 101] in
  let s1 := after (model:=demoModel) s [EvComplete 0 (blobsThrow "lost")] in
  let evs := [EvComplete 1 blobsReady; EvSubmit 12 102; EvSubmit 13 103] in
  let s2 := after (model:=demoModel) s1 evs in
  wf s
  ∧ ∃ cb, requestsPool s2 !! 0 = Some (finished cb Busy)
          ∧ idleCount (requestsPool s2) < length (requestsPool s2).
Proof.
  intros s s1 evs s2.
  assert (wf s) as Hwf by compute_done.
  assert (step (model:=demoModel) s (EvComplete 0 (blobsThrow "lost"))
          = Some (OutComplete false, s1)) as Hstep by (vm_compute; reflexivity).
  assert (run (model:=demoModel) s1 evs
          = Some (outputs (model:=demoModel) s1 evs, s2)) as Hrun
    by (vm_compute; reflexivity).
  split; [exact Hwf|].
  destruct (X3_failed_continuation_loses_its_slot (model:=demoModel)
              s 0 (blobsThrow "lost") s1 evs _ s2 Hwf Hstep Hrun)
    as (cb & Hlost & _ & _ & Hcount).
  exists cb. split; [exact Hlost|exact Hcount].
Defined.

Lemma X4_completion_stores_its_own_result_witness :
  let evs := [EvSubmit 10 100; EvSubmit 11 101] in
  let os := outputs (model:=demoModel) (AsyncPipeline_new 2) evs in
  let s := after (model:=demoModel) (AsyncPipeline_new 2) evs in
  let cb := {| cb_frameID := 1; cb_request := 1;
               cb_internalModelData := 11; cb_metaData := 101 |} in
  run (model:=demoModel) (AsyncPipeline_new 2) evs = Some (os, s)
  ∧ requestsPool s !! 1 = Some (acquired cb)
  ∧ ∃ s1, step (model:=demoModel) s (EvComplete 1 blobsReady)
            = Some (OutComplete true, s1)
          ∧ completedInferenceResults s1 !! 1%Z =
              Some {| frameId := 1; metaData := 101; internalModelData := 11;
                      outputsData := {[ "detection_out"%string := [1%Z; 2%Z] ]} |}.
Proof.
  intros evs os s cb.
  assert (run (model:=demoModel) (AsyncPipeline_new 2) evs = Some (os, s))
    as Hrun by (vm_compute; reflexivity).
  assert (Z.of_nat (accepted os) ≤ INT64_MAX)%Z as Hroom by (vm_compute; discriminate).
  assert (requestsPool s !! 1 = Some (acquired cb)) as Hl by reflexivity.
  split; [exact Hrun|]. split; [exact Hl|].
  destruct (X4_completion_stores_its_own_result (model:=demoModel)
              2 evs os s 1 blobsReady (acquired cb) cb
              {[ "detection_out"%string := [1%Z; 2%Z] ]}
              Hrun Hroom Hl eq_refl eq_refl eq_refl)
    as (s1 & Hstep & _ & Hstored & _).
  exists s1. split; [exact Hstep|exact Hstored].
Defined.

Lemma X5_map_holds_completed_minus_retrieved_witness :
  let os := outputs (model:=demoModel) (AsyncPipeline_new 2) scenario in
  let s := after (model:=demoModel) (AsyncPipeline_new 2) scenario in
  run (model:=demoModel) (AsyncPipeline_new 2) scenario = Some (os, s)
  ∧ size (completedInferenceResults s) + length (retrieved os) = released os.
Proof.
  intros os s.
  assert (run (model:=demoModel) (AsyncPipeline_new 2) scenario = Some (os, s))
    as Hrun by (vm_compute; reflexivity).
  assert (Z.of_nat (accepted os) ≤ INT64_MAX)%Z as Hroom by (vm_compute; discriminate).
  split; [exact Hrun|].
  exact (proj1 (X5_map_holds_completed_minus_retrieved (model:=demoModel)
                  2 scenario os s Hrun Hroom)).
Defined.

Lemma X6_retrieval_stalls_at_a_failed_frame_witness :
  let evs1 := [EvSubmit 10 100; EvSubmit 11 101] in
  let os1 := outputs (model:=demoModel) (AsyncPipeline_new 2) evs1 in
  let s := after (model:=demoModel) (AsyncPipeline_new 2) evs1 in
  let s1 := after (model:=demoModel) s [EvComplete 0 (blobsThrow "lost")] in
  let evs2 := [EvComplete 1 blobsReady; EvGetResult; EvSubmit 12 102;
               EvComplete 1 blobsReady; EvGetResult] in
  let os2 := outputs (model:=demoModel) s1 evs2 in
  let s2 := after (model:=demoModel) s1 evs2 in
  run (model:=demoModel) (AsyncPipeline_new 2) evs1 = Some (os1, s)
  ∧ run (model:=demoModel) s1 evs2 = Some (os2, s2)
  ∧ (outputFrameId s2 ≤ 0 < inputFrameId s2)%Z
  ∧ completedInferenceResults s2 !! 0%Z = None.
Proof.
  intros evs1 os1 s s1 evs2 os2 s2.
  assert (run (model:=demoModel) (AsyncPipeline_new 2) evs1 = Some (os1, s))
    as Hrun1 by (vm_compute; reflexivity).
  assert (run (model:=demoModel) s1 evs2 = Some (os2, s2))
    as Hrun2 by (vm_compute; reflexivity).
  assert (step (model:=demoModel) s (EvComplete 0 (blobsThrow "lost"))
          = Some (OutComplete false, s1)) as Hstep by (vm_compute; reflexivity).
  assert (Z.of_nat (accepted os1 + accepted os2) ≤ INT64_MAX)%Z as Hroom
    by (vm_compute; discriminate).
  split; [exact Hrun1|]. split; [exact Hrun2|].
  destruct (X6_retrieval_stalls_at_a_failed_frame (model:=demoModel)
              2 evs1 os1 s 0 (blobsThrow "lost")
              (acquired {| cb_frameID := 0; cb_request := 0;
                           cb_internalModelData := 10; cb_metaData := 100 |})
              {| cb_frameID := 0; cb_request := 0;
                 cb_internalModelData := 10; cb_metaData := 100 |}
              s1 evs2 os2 s2 Hrun1 eq_refl eq_refl Hstep Hrun2 Hroom)
    as (Hcursor & Hnone & _).
  split; [exact Hcursor|exact Hnone].
Defined.

Lemma X8_wait_returns_when_the_caller_can_proceed_witness :
  let s := after (model:=demoModel) (AsyncPipeline_new 1) [EvSubmit 10 100] in
  let st := after (model:=demoModel) s [EvComplete 0 blobsReady] in
  first_ready s [s; st] = Some st
  ∧ wf st
  ∧ (exec (waitForData [s; st]) s).1 = WaitReturned.
Proof.
  intros s st.
  assert (first_ready s [s; st] = Some st) as Hready by (vm_compute; reflexivity).
  assert (wf st) as Hwf by compute_done.
  split; [exact Hready|]. split; [exact Hwf|].
  exact (proj1 (X8_wait_returns_when_the_caller_can_proceed (model:=demoModel)
                  s [s; st] st Hready Hwf eq_refl)).
Defined.

Lemma X12_blocked_wait_means_nothing_to_do_witness :
  let s := after (model:=demoModel) (AsyncPipeline_new 1) [EvSubmit 10 100] in
  (exec (waitForData []) s).1 = WaitBlocked
  ∧ exec (getResult (model:=demoModel)) s = (None, s).
Proof.
  intros s.
  assert ((exec (waitForData []) s).1 = WaitBlocked) as Hblocked
    by (vm_compute; reflexivity).
  split; [exact Hblocked|].
  exact (proj2 (X12_blocked_wait_means_nothing_to_do (model:=demoModel) s Hblocked)).
Defined.

Lemma X9_empty_pool_is_inert_witness :
  let evs := [EvSubmit 10 100; EvGetResult; EvSubmit 11 101] in
  let os := outputs (model:=demoModel) (AsyncPipeline_new 0) evs in
  let s := after (model:=demoModel) (AsyncPipeline_new 0) evs in
  run (model:=demoModel) (AsyncPipeline_new 0) evs = Some (os, s)
  ∧ s = AsyncPipeline_new 0.
Proof.
  intros evs os s.
  assert (run (model:=demoModel) (AsyncPipeline_new 0) evs = Some (os, s))
    as Hrun by (vm_compute; reflexivity).
  split; [exact Hrun|].
  exact (proj1 (X9_empty_pool_is_inert (model:=demoModel) evs os s Hrun)).
Defined.

Lemma X10_getResult_overrides_base_fields_witness :
  let s := after (model:=demoModel) (AsyncPipeline_new 1)
             [EvSubmit 10 100; EvComplete 0 blobsReady] in
  let r := {| res_frameId := 0; res_metaData := 100; res_payload := [0%Z] |} in
  let s' := after (model:=demoModel) s [EvGetResult] in
  exec (getResult (model:=demoModel)) s = (Some r, s')
  ∧ ∃ infResult,
      completedInferenceResults s !! outputFrameId s = Some infResult
      ∧ res_frameId r = frameId infResult
      ∧ res_metaData r = metaData infResult.
Proof.
  intros s r s'.
  assert (exec (getResult (model:=demoModel)) s = (Some r, s')) as Hget
    by (vm_compute; reflexivity).
  split; [exact Hget|].
  destruct (X10_getResult_overrides_base_fields (model:=demoModel) s r s' Hget)
    as (infResult & Hl & Hf & Hm & _).
  exists infResult. split; [exact Hl|]. split; [exact Hf|exact Hm].
Defined.

Lemma X11_constructor_forces_batch_one_witness :
  let cnnConfig := {| devices := "CPU"; cpuExtensionsPath := "";
                      clKernelsConfigPath := ""; execNetworkConfig := [];
                      maxAsyncRequests := 2 |} in
  let inputShapes : gmap string (list nat) :=
    {[ "data"%string := [8; 3; 224; 224] ]} in
  let scalarShapes : gmap string (list nat) :=
    {[ "data"%string := [8; 3; 224; 224]; "scale"%string := [] ]} in
  AsyncPipeline_ctor "model.xml" cnnConfig scalarShapes = None
  ∧ ∃ calls s reshaped,
      AsyncPipeline_ctor "model.xml" cnnConfig inputShapes = Some (calls, s)
      ∧ reshapedTo calls = Some reshaped
      ∧ reshaped = {[ "data"%string := [1; 3; 224; 224] ]}.
Proof.
  intros cnnConfig inputShapes scalarShapes. split.
  - apply (proj1 (X11_constructor_forces_batch_one "model.xml" cnnConfig scalarShapes)).
    exists "scale"%string. vm_compute. reflexivity.
  - assert (∃ calls s, AsyncPipeline_ctor "model.xml" cnnConfig inputShapes
                       = Some (calls, s)) as (calls & s & Hctor).
    { vm_compute. do 2 eexists. reflexivity. }
    destruct (proj2 (X11_constructor_forces_batch_one "model.xml" cnnConfig inputShapes)
                calls s Hctor) as (reshaped & Hcall & _ & Heach & _).
    exists calls, s, reshaped. split; [exact Hctor|]. split; [exact Hcall|].
    vm_compute in Hctor. injection Hctor as <- _.
    vm_compute in Hcall. injection Hcall as <-. vm_compute. reflexivity.
Defined.
